(** * Meraki partner license report: a shallow embedding of
    [license_report.py] and the properties of its normalisation,
    sorting and sheet-assembly pipeline.

    Conventions of the model.
    - A Python [str] is a [string] whose characters are code points
      below 256.
    - A Python [int] is a [Z].
    - A Python [dict] with string keys is an association list that keeps
      insertion order (the column order of a sheet depends on it).
    - The Meraki dashboard, the clock and the spreadsheet writer are the
      program's collaborators: their answers are section variables, and
      every call is recorded in the state of the monad [M]. *)

From Stdlib Require Import ZArith List Bool Ascii String Lia.
From Stdlib Require Import Sorted Permutation.
From Stdlib Require Import DecimalString DecimalZ.
Import ListNotations.

Open Scope list_scope.
Open Scope string_scope.
Open Scope Z_scope.

(** ** Python values *)

Module Py.

(** JSON-like values handled by the script. *)
Inductive value : Type :=
| VNone : value
| VStr : string -> value
| VInt : Z -> value.

Definition value_eqb (a b : value) : bool :=
  match a, b with
  | VNone, VNone => true
  | VStr s, VStr t => String.eqb s t
  | VInt n, VInt m => Z.eqb n m
  | _, _ => false
  end.

(** Truth value of an object in an [if]. *)
Definition truthy (v : value) : bool :=
  match v with
  | VNone => false
  | VStr s => negb (String.eqb s "")
  | VInt n => negb (Z.eqb n 0)
  end.

(** Exceptions the script can meet. *)
Inductive exn : Type :=
| ValueError | TypeError | AttributeError | IndexError | KeyError
| APIError.

(** [str(n)] for an integer. *)
Definition str (n : Z) : string := NilZero.string_of_int (Z.to_int n).

(** *** Characters *)

Definition code (c : ascii) : Z := Z.of_nat (nat_of_ascii c).

(** [str.isspace] on code points below 256; it is also the class [\s]
    of a [str] pattern. *)
Definition isspace (c : ascii) : bool :=
  let n := code c in
  ((9 <=? n) && (n <=? 13)) || ((28 <=? n) && (n <=? 32))
  || (n =? 133) || (n =? 160).

Definition isdigit (c : ascii) : bool :=
  let n := code c in (48 <=? n) && (n <=? 57).

Definition digit_val (c : ascii) : Z := code c - 48.

Definition lower_char (c : ascii) : ascii :=
  let n := code c in
  if (65 <=? n) && (n <=? 90) then ascii_of_nat (Z.to_nat (n + 32)) else c.

(** *** [str.replace] and [str.strip] *)

(** [replace_from skip old new s]: left-to-right, non-overlapping
    replacement; [skip] counts the characters of a match that are still
    to be passed over. *)
Fixpoint replace_from (skip : nat) (old new s : string) : string :=
  match s with
  | EmptyString => EmptyString
  | String c s' =>
      match skip with
      | S k => replace_from k old new s'
      | O =>
          if String.prefix old s
          then new ++ replace_from (String.length old - 1) old new s'
          else String c (replace_from O old new s')
      end
  end.

(** [s.replace(old, new)] for a non-empty [old]. *)
Definition replace (old new s : string) : string := replace_from O old new s.

Fixpoint lstrip (s : string) : string :=
  match s with
  | EmptyString => EmptyString
  | String c s' => if isspace c then lstrip s' else s
  end.

Fixpoint rstrip (s : string) : string :=
  match s with
  | EmptyString => EmptyString
  | String c s' =>
      match rstrip s' with
      | EmptyString => if isspace c then EmptyString else String c EmptyString
      | r => String c r
      end
  end.

Definition strip (s : string) : string := rstrip (lstrip s).

(** *** Ordered dictionaries *)

Definition dict := list (string * value).

Fixpoint dict_get (k : string) (d : dict) : option value :=
  match d with
  | [] => None
  | (k', v) :: d' => if String.eqb k k' then Some v else dict_get k d'
  end.

(** [d[k] = v]: an existing key keeps its position, a new key goes last. *)
Fixpoint dict_set (k : string) (v : value) (d : dict) : dict :=
  match d with
  | [] => [(k, v)]
  | (k', v') :: d' =>
      if String.eqb k k' then (k', v) :: d' else (k', v') :: dict_set k v d'
  end.

Definition keys (d : dict) : list string := map fst d.

End Py.

Import Py.

(** ** [sorted(xs, key=...)]: a stable sort that only uses [<] *)

Section Sorted.
Context {K A : Type}.
Variable ltb : K -> K -> bool.

(** Insert [x] in front of the first element whose key is not smaller
    than the key of [x]. *)
Fixpoint insert_by (x : K * A) (l : list (K * A)) : list (K * A) :=
  match l with
  | [] => [x]
  | y :: l' => if ltb (fst y) (fst x) then y :: insert_by x l' else x :: l
  end.

Fixpoint sort_decorated (l : list (K * A)) : list (K * A) :=
  match l with
  | [] => []
  | x :: l' => insert_by x (sort_decorated l')
  end.

(** Keys are computed once for each element, then the decorated list
    is sorted and undecorated. *)
Definition sorted_by (key : A -> K) (l : list A) : list A :=
  map snd (sort_decorated (map (fun a => (key a, a)) l)).
End Sorted.

(** ** The [datetime] module *)

Module Datetime.

Record datetime : Type := mkDatetime {
  year : Z; month : Z; day : Z;
  hour : Z; minute : Z; second : Z; microsecond : Z
}.

Record timedelta : Type := mkTimedelta {
  days : Z; seconds : Z; microseconds : Z
}.

Definition is_leap (y : Z) : bool :=
  (y mod 4 =? 0) && (negb (y mod 100 =? 0) || (y mod 400 =? 0)).

Definition days_in_month_table : list Z :=
  [-1; 31; 28; 31; 30; 31; 30; 31; 31; 30; 31; 30; 31].

Definition days_before_month_table : list Z :=
  [-1; 0; 31; 59; 90; 120; 151; 181; 212; 243; 273; 304; 334].

Definition days_in_month (y m : Z) : Z :=
  if (m =? 2) && is_leap y then 29
  else nth (Z.to_nat m) days_in_month_table 0.

Definition days_before_year (y : Z) : Z :=
  let y' := y - 1 in y' * 365 + y' / 4 - y' / 100 + y' / 400.

Definition days_before_month (y m : Z) : Z :=
  nth (Z.to_nat m) days_before_month_table 0
  + (if (2 <? m) && is_leap y then 1 else 0).

Definition ymd2ord (y m d : Z) : Z :=
  days_before_year y + days_before_month y m + d.

Definition toordinal (t : datetime) : Z := ymd2ord (year t) (month t) (day t).

Definition MINYEAR : Z := 1.
Definition MAXYEAR : Z := 9999.

Definition check_date_fields (y m d : Z) : bool :=
  (MINYEAR <=? y) && (y <=? MAXYEAR) && (1 <=? m) && (m <=? 12)
  && (1 <=? d) && (d <=? days_in_month y m).

Definition check_time_fields (h mi s us : Z) : bool :=
  (0 <=? h) && (h <=? 23) && (0 <=? mi) && (mi <=? 59)
  && (0 <=? s) && (s <=? 59) && (0 <=? us) && (us <=? 999999).

(** The constructor [datetime(y, m, d, h, mi, s, us)], which raises
    [ValueError] on a field out of range. *)
Definition datetime_new (y m d h mi s us : Z) : option datetime :=
  if check_date_fields y m d && check_time_fields h mi s us
  then Some (mkDatetime y m d h mi s us) else None.

(** [datetime.max] *)
Definition datetime_max : datetime := mkDatetime 9999 12 31 23 59 59 999999.

(** The constructor [timedelta(days, seconds, microseconds)] on integers:
    carries are propagated so that [0 <= microseconds < 10^6] and
    [0 <= seconds < 86400]. *)
Definition timedelta_new (d s us : Z) : timedelta :=
  let s1 := s + us / 1000000 in
  mkTimedelta (d + s1 / 86400) (s1 mod 86400) (us mod 1000000).

(** [a - b] on two naive datetimes. *)
Definition datetime_sub (a b : datetime) : timedelta :=
  let secs1 := second a + minute a * 60 + hour a * 3600 in
  let secs2 := second b + minute b * 60 + hour b * 3600 in
  timedelta_new (toordinal a - toordinal b) (secs1 - secs2)
                (microsecond a - microsecond b).

Definition fields (t : datetime) : list Z :=
  [year t; month t; day t; hour t; minute t; second t; microsecond t].

(** Lexicographic [<] on tuples of integers. *)
Fixpoint lex_ltb (a b : list Z) : bool :=
  match a, b with
  | x :: a', y :: b' => (x <? y) || ((x =? y) && lex_ltb a' b')
  | [], _ :: _ => true
  | _, [] => false
  end.

(** [a < b] on datetimes compares the field tuples. *)
Definition datetime_ltb (a b : datetime) : bool := lex_ltb (fields a) (fields b).

(** Microseconds elapsed since the start of ordinal day 0; the position of
    a datetime on the time line. *)
Definition instant (t : datetime) : Z :=
  ((toordinal t * 86400) + hour t * 3600 + minute t * 60 + second t)
  * 1000000 + microsecond t.

Definition usec_per_day : Z := 86400 * 1000000.

End Datetime.

Import Datetime.

(** ** [datetime.strptime] and [datetime.strftime]

    [strptime] turns the format into a regular expression, matches it
    case-insensitively at the start of the text with a backtracking
    matcher, rejects text that is left over, and hands the fields to the
    [datetime] constructor. A matcher returns its matches in the order in
    which backtracking finds them. Month names are those of the C locale. *)

Module Strptime.

Definition matcher (A : Type) : Type := string -> list (A * string).

Definition ret {A : Type} (a : A) : matcher A := fun s => [(a, s)].

Definition bind {A B : Type} (p : matcher A) (f : A -> matcher B) : matcher B :=
  fun s => flat_map (fun ar => f (fst ar) (snd ar)) (p s).

Definition alt {A : Type} (p q : matcher A) : matcher A :=
  fun s => (p s ++ q s)%list.

#[local] Notation "x <- p ;; q" := (bind p (fun x => q))
  (at level 61, p at next level, right associativity).
#[local] Notation "p <|> q" := (alt p q) (at level 50, left associativity).

Definition char_if (f : ascii -> bool) : matcher ascii :=
  fun s => match s with
           | String c r => if f c then [(c, r)] else []
           | EmptyString => []
           end.

(** A literal character of the format, matched without regard to case. *)
Definition lit (c : ascii) : matcher unit :=
  _ <- char_if (fun x => Ascii.eqb (lower_char x) (lower_char c)) ;; ret tt.

Fixpoint lit_string (w : string) : matcher unit :=
  match w with
  | EmptyString => ret tt
  | String c w' => _ <- lit c ;; lit_string w'
  end.

(** A digit of the class [[lo-hi]]. *)
Definition digit_in (lo hi : Z) : matcher Z :=
  c <- char_if (fun x => isdigit x && (lo <=? digit_val x) && (digit_val x <=? hi)) ;;
  ret (digit_val c).

Definition two (a b : matcher Z) : matcher Z :=
  x <- a ;; y <- b ;; ret (10 * x + y).

(** [\s*] and [\s+], greedy. *)
Fixpoint spaces0 (s : string) : list (unit * string) :=
  match s with
  | String c r => if isspace c then (spaces0 r ++ [(tt, s)])%list else [(tt, s)]
  | EmptyString => [(tt, s)]
  end.

Definition spaces1 : matcher unit :=
  fun s => match s with
           | String c r => if isspace c then spaces0 r else []
           | EmptyString => []
           end.

(** [%d]: [3[0-1]|[1-2]\d|0[1-9]|[1-9]| [1-9]] *)
Definition dir_d : matcher Z :=
  two (digit_in 3 3) (digit_in 0 1) <|> two (digit_in 1 2) (digit_in 0 9)
  <|> two (digit_in 0 0) (digit_in 1 9) <|> digit_in 1 9
  <|> (_ <- lit " " ;; digit_in 1 9).

(** [%m]: [1[0-2]|0[1-9]|[1-9]] *)
Definition dir_m : matcher Z :=
  two (digit_in 1 1) (digit_in 0 2) <|> two (digit_in 0 0) (digit_in 1 9)
  <|> digit_in 1 9.

(** [%H]: [2[0-3]|[0-1]\d|\d] *)
Definition dir_H : matcher Z :=
  two (digit_in 2 2) (digit_in 0 3) <|> two (digit_in 0 1) (digit_in 0 9)
  <|> digit_in 0 9.

(** [%M]: [[0-5]\d|\d] *)
Definition dir_M : matcher Z :=
  two (digit_in 0 5) (digit_in 0 9) <|> digit_in 0 9.

(** [%S]: [6[0-1]|[0-5]\d|\d] *)
Definition dir_S : matcher Z :=
  two (digit_in 6 6) (digit_in 0 1) <|> two (digit_in 0 5) (digit_in 0 9)
  <|> digit_in 0 9.

(** [%Y]: [\d\d\d\d] *)
Definition dir_Y : matcher Z :=
  a <- digit_in 0 9 ;; b <- digit_in 0 9 ;; c <- digit_in 0 9 ;;
  d <- digit_in 0 9 ;; ret (1000 * a + 100 * b + 10 * c + d).

Definition month_abbr : list string :=
  ["Jan"; "Feb"; "Mar"; "Apr"; "May"; "Jun";
   "Jul"; "Aug"; "Sep"; "Oct"; "Nov"; "Dec"].

(** One alternative for each name, numbered from [i]. *)
Fixpoint names_from (i : Z) (names : list string) : matcher Z :=
  match names with
  | [] => fun _ => []
  | w :: names' => (_ <- lit_string w ;; ret i) <|> names_from (i + 1) names'
  end.

(** [%b] *)
Definition dir_b : matcher Z := names_from 1 month_abbr.

Section Zone.
(** The lower-cased names of the local time zone ([time.tzname]). *)
Variable tznames : list string.

(** [%Z]: the names [utc], [gmt] and the local ones, longest first (the
    order among names of one length does not change what is matched). *)
Definition zone_names : list string :=
  sorted_by (fun a b => b <? a) (fun w => Z.of_nat (String.length w))
            ("utc" :: "gmt" :: tznames).

Definition dir_Z : matcher Z := names_from 0 zone_names.

(** The first match, provided nothing of the text is left over. *)
Definition full_match {A : Type} (p : matcher A) (s : string) : option A :=
  match p s with
  | (a, EmptyString) :: _ => Some a
  | _ => None
  end.

Definition date_of (ymd : Z * Z * Z) : option datetime :=
  let '(y, m, d) := ymd in datetime_new y m d 0 0 0 0.

Definition re_bdY : matcher (Z * Z * Z) :=
  m <- dir_b ;; _ <- spaces1 ;; d <- dir_d ;; _ <- lit "," ;;
  _ <- spaces1 ;; y <- dir_Y ;; ret (y, m, d).

(** [datetime.strptime(s, '%b %d, %Y')] *)
Definition strptime_bdY (s : string) : option datetime :=
  match full_match re_bdY s with
  | Some ymd => date_of ymd
  | None => None
  end.

(** [datetime.strptime(s, '%b %d, %Y %Z')] *)
Definition strptime_bdYZ (s : string) : option datetime :=
  match full_match (ymd <- re_bdY ;; _ <- spaces1 ;; _ <- dir_Z ;; ret ymd) s with
  | Some ymd => date_of ymd
  | None => None
  end.

(** [datetime.strptime(s, '%Y-%m-%dT%H:%M:%SZ')] *)
Definition strptime_iso (s : string) : option datetime :=
  match full_match
          (y <- dir_Y ;; _ <- lit "-" ;; m <- dir_m ;; _ <- lit "-" ;;
           d <- dir_d ;; _ <- lit "T" ;; h <- dir_H ;; _ <- lit ":" ;;
           mi <- dir_M ;; _ <- lit ":" ;; sec <- dir_S ;; _ <- lit "Z" ;;
           ret (y, m, d, h, mi, sec)) s with
  | Some (y, m, d, h, mi, sec) => datetime_new y m d h mi sec 0
  | None => None
  end.

End Zone.

(** [%d] of [strftime]: two digits. *)
Definition pad2 (n : Z) : string :=
  if n <? 10 then "0" ++ str n else str n.

(** [t.strftime('%b %d, %Y')]; the year is printed as the C library of
    Linux does, without padding. *)
Definition strftime_bdY (t : datetime) : string :=
  nth (Z.to_nat (month t - 1)) month_abbr ""
  ++ " " ++ pad2 (day t) ++ ", " ++ str (year t).

End Strptime.

Import Strptime.

(** ** The script *)

Module Report.

(** *** Collaborators and effects

    The answers of the dashboard are decoded JSON objects; a record
    stands for an object in which every key that the script reads is
    present. What the script prints on the console takes no part in its
    decisions and is left out. *)

Record Org : Type := mkOrg {
  org_name : value; org_id : value; licensing_model : value
}.

Record Overview : Type := mkOverview {
  ov_status : value; ov_expirationDate : value
}.

Record License : Type := mkLicense {
  licenseType : value; state : value; expirationDate : value;
  durationInDays : value; deviceSerial : value; networkId : value
}.

Record Network : Type := mkNetwork { net_name : value }.

(** Calls to the dashboard, in the order in which they are made. *)
Inductive call : Type :=
| GetOrganizations : call
| GetOrganizationLicensesOverview : value -> call
| GetOrganizationLicenses : value -> call
| GetNetwork : value -> call.

(** The state threaded through the script: the dashboard calls made so
    far and the number of times the clock was read. *)
Record world : Type := mkWorld { calls : list call; ticks : nat }.

Inductive result (A : Type) : Type :=
| Ok : A -> result A
| Raise : exn -> result A.
Arguments Ok {A} _.
Arguments Raise {A} _.

Definition M (A : Type) : Type := world -> result A * world.

Definition ret {A : Type} (a : A) : M A := fun w => (Ok a, w).

Definition raise {A : Type} (e : exn) : M A := fun w => (Raise e, w).

Definition bind {A B : Type} (c : M A) (k : A -> M B) : M B :=
  fun w => match c w with
           | (Ok a, w') => k a w'
           | (Raise e, w') => (Raise e, w')
           end.

Notation "x <- c ;; k" := (bind c (fun x => k))
  (at level 61, c at next level, right associativity).

Definition lift {A : Type} (r : result A) : M A := fun w => (r, w).

Definition log (c : call) (w : world) : world :=
  mkWorld (calls w ++ [c])%list (ticks w).

Definition tick (w : world) : world := mkWorld (calls w) (S (ticks w)).

Definition NA : value := VStr "N/A".

Section Script.

(** Lower-cased [time.tzname] of the host. *)
Variable tznames : list string.
(** The reading of the UTC clock at its n-th query. *)
Variable clock : nat -> datetime.
(** The answers of the dashboard. *)
Variable api_getOrganizations : result (list Org).
Variable api_getOrganizationLicensesOverview : value -> result Overview.
Variable api_getOrganizationLicenses : value -> result (list License).
Variable api_getNetwork : value -> result Network.

Definition utcnow : M datetime :=
  fun w => (Ok (clock (ticks w)), tick w).

Definition getOrganizations : M (list Org) :=
  fun w => (api_getOrganizations, log GetOrganizations w).

Definition getOrganizationLicensesOverview (id : value) : M Overview :=
  fun w => (api_getOrganizationLicensesOverview id,
            log (GetOrganizationLicensesOverview id) w).

Definition getOrganizationLicenses (id : value) : M (list License) :=
  fun w => (api_getOrganizationLicenses id, log (GetOrganizationLicenses id) w).

Definition getNetwork (id : value) : M Network :=
  fun w => (api_getNetwork id, log (GetNetwork id) w).

(** [datetime.strptime(v, fmt)] on a value: [TypeError] unless [v] is a
    string, [ValueError] when it does not parse. *)
Definition strptime_value (parse : string -> option datetime) (v : value)
  : result datetime :=
  match v with
  | VStr s => match parse s with
              | Some t => Ok t
              | None => Raise ValueError
              end
  | _ => Raise TypeError
  end.

(** *** [get_days_remaining] *)

Definition get_days_remaining (expiration_date : value) : M value :=
  current_date <- utcnow ;;
  target_date <- lift (strptime_value (strptime_bdYZ tznames) expiration_date) ;;
  let days_difference := days (datetime_sub target_date current_date) in
  ret (if 0 <? days_difference then VStr (str days_difference) else NA).

(** *** [co_term_license] *)

Definition co_term_license (org_name org_id : value) : M dict :=
  let license_info :=
    [("Org. Name", org_name); ("Org. ID", org_id); ("License Status", NA);
     ("License Expiration", NA); ("Days Remaining", NA)] in
  license_overview <- getOrganizationLicensesOverview org_id ;;
  let license_info :=
    dict_set "License Status" (ov_status license_overview) license_info in
  let expiration_date := ov_expirationDate license_overview in
  display <- match expiration_date with
             | VStr s => ret (VStr (strip (replace "UTC" "" s)))
             | _ => raise AttributeError
             end ;;
  let license_info := dict_set "License Expiration" display license_info in
  remaining <- get_days_remaining expiration_date ;;
  ret (dict_set "Days Remaining" remaining license_info).

(** *** [per_device_license] *)

(** The body of the loop over the licenses of an organization. *)
Definition per_device_entry (org_name org_id : value) (license : License)
  : M dict :=
  let license_info :=
    [("Org. Name", org_name); ("Org. ID", org_id);
     ("License Type", licenseType license); ("License Status", state license);
     ("License Expiration", NA); ("Days Remaining", NA);
     ("Associated Device", NA); ("Associated Network", NA)] in
  if truthy (expirationDate license) then
    let expiration_date := expirationDate license in
    datetime_obj <- lift (strptime_value strptime_iso expiration_date) ;;
    let formatted_date := strftime_bdY datetime_obj in
    let license_info :=
      dict_set "License Expiration" (VStr formatted_date) license_info in
    let license_info :=
      dict_set "Days Remaining" (durationInDays license) license_info in
    let license_info :=
      dict_set "Associated Device" (deviceSerial license) license_info in
    network <- getNetwork (networkId license) ;;
    ret (dict_set "Associated Network" (net_name network) license_info)
  else ret license_info.

Fixpoint per_device_loop (org_name org_id : value) (licenses : list License)
  (per_device_licenses : list dict) : M (list dict) :=
  match licenses with
  | [] => ret per_device_licenses
  | license :: rest =>
      license_info <- per_device_entry org_name org_id license ;;
      per_device_loop org_name org_id rest
                      (per_device_licenses ++ [license_info])%list
  end.

Definition per_device_license (org_name org_id : value) : M (list dict) :=
  licenses <- getOrganizationLicenses org_id ;;
  per_device_loop org_name org_id licenses [].

(** *** [main]: dispatch *)

Definition buckets : Type := (list dict * list (list dict))%type.

(** The body of the loop over the organizations. *)
Definition dispatch_org (org : Org) (b : buckets) : M buckets :=
  let '(coterm_licenses, per_device_licenses) := b in
  let license_type := licensing_model org in
  if value_eqb license_type (VStr "co-term") then
    license_info <- co_term_license (org_name org) (org_id org) ;;
    ret ((coterm_licenses ++ [license_info])%list, per_device_licenses)
  else if value_eqb license_type (VStr "per-device") then
    license_info <- per_device_license (org_name org) (org_id org) ;;
    ret (coterm_licenses, (per_device_licenses ++ [license_info])%list)
  else ret (coterm_licenses, per_device_licenses).

Fixpoint dispatch (orgs : list Org) (b : buckets) : M buckets :=
  match orgs with
  | [] => ret b
  | org :: rest => b' <- dispatch_org org b ;; dispatch rest b'
  end.

End Script.

(** *** [main]: sorting and sheets *)

Definition rbind {A B : Type} (r : result A) (k : A -> result B) : result B :=
  match r with
  | Ok a => k a
  | Raise e => Raise e
  end.

(** The [key] of both calls of [sorted]. *)
Definition expiration_key (item : dict) : result datetime :=
  match dict_get "License Expiration" item with
  | None => Raise KeyError
  | Some v =>
      if negb (value_eqb v NA) then strptime_value strptime_bdY v
      else Ok datetime_max
  end.

(** The keys are computed for all items, in order, before any comparison. *)
Fixpoint decorate (l : list dict) : result (list (datetime * dict)) :=
  match l with
  | [] => Ok []
  | item :: l' =>
      rbind (expiration_key item) (fun k =>
      rbind (decorate l') (fun d => Ok ((k, item) :: d)))
  end.

(** [sorted(l, key=lambda item: ...)] *)
Definition sorted_by_expiration (l : list dict) : result (list dict) :=
  rbind (decorate l) (fun d => Ok (map snd (sort_decorated datetime_ltb d))).

(** A data frame: the column labels and, for each record, the cell of each
    column ([None] where the record has no such key). *)
Record frame : Type := mkFrame {
  columns : list string; data : list (list (option value))
}.

(** Labels in the order of their first appearance. *)
Fixpoint uniques (seen l : list string) : list string :=
  match l with
  | [] => []
  | k :: l' =>
      if existsb (String.eqb k) seen then uniques seen l'
      else k :: uniques (k :: seen) l'
  end.

(** [pd.DataFrame(records)] for a list of dictionaries: the columns are
    the keys of the records; there is none when the list is empty. *)
Definition DataFrame (records : list dict) : frame :=
  let cols := uniques [] (flat_map keys records) in
  mkFrame cols (map (fun r => map (fun c => dict_get c r) cols) records).

(** A sheet as handed to the spreadsheet writer: its name, the header row
    and the data rows. *)
Record sheet : Type := mkSheet {
  sheet_name : value; header : list string; body : list (list (option value))
}.

(** [df.to_excel(writer, sheet_name=name, index=False)] *)
Definition to_excel (df : frame) (name : value) : sheet :=
  mkSheet name (columns df) (data df).

(** The loop over the per-device organizations. *)
Fixpoint per_device_sheets (per_device_licenses : list (list dict))
  : result (list sheet) :=
  match per_device_licenses with
  | [] => Ok []
  | org_licenses :: rest =>
      rbind (sorted_by_expiration org_licenses) (fun org_licenses_sorted =>
      let org_licenses_df := DataFrame org_licenses_sorted in
      rbind (match org_licenses_sorted with
             | [] => Raise IndexError
             | first :: _ =>
                 match dict_get "Org. Name" first with
                 | Some v => Ok v
                 | None => Raise KeyError
                 end
             end) (fun name =>
      rbind (per_device_sheets rest) (fun sheets =>
      Ok (to_excel org_licenses_df name :: sheets))))
  end.

(** The body of [with pd.ExcelWriter(...)]: the sheets in the order in
    which they are written. *)
Definition write_report (b : buckets) : result (list sheet) :=
  rbind (sorted_by_expiration (fst b)) (fun coterm_licenses_sorted =>
  let coterm_licenses_df := DataFrame coterm_licenses_sorted in
  rbind (per_device_sheets (snd b)) (fun sheets =>
  Ok (to_excel coterm_licenses_df (VStr "Co-term Customers") :: sheets))).

Section Main.
Variable tznames : list string.
Variable clock : nat -> datetime.
Variable api_getOrganizations : result (list Org).
Variable api_getOrganizationLicensesOverview : value -> result Overview.
Variable api_getOrganizationLicenses : value -> result (list License).
Variable api_getNetwork : value -> result Network.

Definition main : M (list sheet) :=
  orgs <- getOrganizations api_getOrganizations ;;
  b <- dispatch tznames clock api_getOrganizationLicensesOverview
                api_getOrganizationLicenses api_getNetwork orgs ([], []) ;;
  lift (write_report b).

End Main.

Definition w0 : world := mkWorld [] 0.

End Report.

Import Report.

(** ** The display of the specification

    The second definition of the display of a co-term record, written
    from the words of the specification: the expiration text "with the
    timezone token stripped and surrounding whitespace trimmed", the
    timezone token being the last word of ["Mon D, YYYY <timezone-name>"].
    It is compared with what [co_term_license] computes. *)

Module Spec.

Fixpoint has_space (s : string) : bool :=
  match s with
  | EmptyString => false
  | String c s' => isspace c || has_space s'
  end.

(** The text without its last word. *)
Fixpoint drop_last_token (s : string) : string :=
  match s with
  | EmptyString => EmptyString
  | String c s' =>
      if has_space s' then String c (drop_last_token s')
      else if isspace c then String c EmptyString else EmptyString
  end.

Definition without_zone_token (s : string) : string :=
  strip (drop_last_token (rstrip s)).

(** [pat in s] *)
Fixpoint occurs (pat s : string) : bool :=
  match s with
  | EmptyString => String.prefix pat s
  | String _ s' => String.prefix pat s || occurs pat s'
  end.

End Spec.

Import Spec.

(** ** The two shapes of a per-device record

    Names for the two dictionaries that the body of the loop of
    [per_device_license] can build; the theorems on the loop are stated
    with them. *)

(** The record of a license without an expiration date. *)
Definition default_record (name id : value) (license : License) : dict :=
  [("Org. Name", name); ("Org. ID", id);
   ("License Type", licenseType license); ("License Status", state license);
   ("License Expiration", NA); ("Days Remaining", NA);
   ("Associated Device", NA); ("Associated Network", NA)].

(** The record of a license that expires at [t], on network [n]. *)
Definition dated_record (name id : value) (license : License) (t : datetime) (n : Network) : dict :=
  [("Org. Name", name); ("Org. ID", id);
   ("License Type", licenseType license); ("License Status", state license);
   ("License Expiration", VStr (strftime_bdY t));
   ("Days Remaining", durationInDays license);
   ("Associated Device", deviceSerial license);
   ("Associated Network", net_name n)].

(** ** Routing predicates

    The two tests of the loop of [main], as predicates on organizations. *)

Definition is_coterm (org : Org) : bool :=
  value_eqb (licensing_model org) (VStr "co-term").

Definition is_per_device (org : Org) : bool :=
  value_eqb (licensing_model org) (VStr "per-device").



(** ** Notions for the sort *)

(** [y] may stand after [x]: the key of [y] is not smaller. *)
Definition no_inversion {K A : Type} (ltb : K -> K -> bool) (x y : K * A) : Prop :=
  ltb (fst y) (fst x) = false.

Definition datetime_eqb (a b : datetime) : bool :=
  forallb (fun xy => fst xy =? snd xy) (combine (fields a) (fields b)).

(** The record has the sort key [k]. *)
Definition has_key (k : datetime) (item : dict) : bool :=
  match expiration_key item with
  | Ok k' => datetime_eqb k' k
  | Raise _ => false
  end.

(** ** Notions for the normalizers and the sheets *)

(** A record made by the body of the loop for a license entry. *)
Definition made_for (api_getNetwork : value -> result Network) (name id : value)
  (license : License) (record : dict) : Prop :=
  (truthy (expirationDate license) = false
   /\ record = default_record name id license)
  \/ (truthy (expirationDate license) = true
      /\ exists (t : datetime) (n : Network),
           strptime_value strptime_iso (expirationDate license) = Ok t
           /\ api_getNetwork (networkId license) = Ok n
           /\ record = dated_record name id license t n).

(** A license entry on which the body of the loop does not raise. *)
Definition entry_ok (api_getNetwork : value -> result Network)
  (license : License) : Prop :=
  truthy (expirationDate license) = true ->
  (exists t : datetime,
      strptime_value strptime_iso (expirationDate license) = Ok t)
  /\ (exists n : Network, api_getNetwork (networkId license) = Ok n).

(** The record of a co-term organization. *)
Definition coterm_record (org : Org) (record : dict) : Prop :=
  exists status display remaining : value,
    record = [("Org. Name", org_name org); ("Org. ID", org_id org);
              ("License Status", status); ("License Expiration", display);
              ("Days Remaining", remaining)].

(** A record of a per-device organization. *)
Definition per_device_record (api_getNetwork : value -> result Network)
  (org : Org) (record : dict) : Prop :=
  exists license : License,
    made_for api_getNetwork (org_name org) (org_id org) license record.

(** The columns of the two kinds of sheet. *)
Definition coterm_columns : list string :=
  ["Org. Name"; "Org. ID"; "License Status"; "License Expiration";
   "Days Remaining"].

Definition per_device_columns : list string :=
  ["Org. Name"; "Org. ID"; "License Type"; "License Status";
   "License Expiration"; "Days Remaining"; "Associated Device";
   "Associated Network"].

(** A decorated record carries its own sort key. *)
Definition keyed (p : datetime * dict) : Prop :=
  expiration_key (snd p) = Ok (fst p).

(** ** [output_file_name] *)

Module Output.

(** A [datetime.date]. *)
Record date : Type := mkDate { d_year : Z; d_month : Z; d_day : Z }.

(** [d.strftime("%m-%d-%Y")]: month and day on two digits; the year as
    the C library of Linux prints it. *)
Definition strftime_mdY (d : date) : string :=
  pad2 (d_month d) ++ "-" ++ pad2 (d_day d) ++ "-" ++ str (d_year d).

(** [output_file_name()], [current_date] being the answer of
    [date.today()]. *)
Definition output_file_name (current_date : date) : string :=
  let date_string := strftime_mdY current_date in
  "meraki_license_report_" ++ date_string ++ ".xlsx".

(** A date that the constructor of [date] accepts. *)
Definition valid_date (d : date) : Prop :=
  check_date_fields (d_year d) (d_month d) (d_day d) = true.

End Output.

Import Output.

(** ** Notions for the trace of dashboard calls *)

(** The network lookups that the licenses of an organization cause: one
    for each license with an expiration date, in order. *)
Definition network_calls (licenses : list License) : list call :=
  map (fun l => GetNetwork (networkId l))
      (filter (fun l => truthy (expirationDate l)) licenses).

(** The calls that the loop of [main] makes for an organization. *)
Definition org_calls (api_getOrganizationLicenses : value -> result (list License))
  (org : Org) : list call :=
  if is_coterm org then [GetOrganizationLicensesOverview (org_id org)]
  else if is_per_device org then
    GetOrganizationLicenses (org_id org)
    :: match api_getOrganizationLicenses (org_id org) with
       | Ok licenses => network_calls licenses
       | Raise _ => []
       end
  else [].

(** The time of day of a datetime, in microseconds. *)
Definition time_of_day (t : datetime) : Z :=
  (hour t * 3600 + minute t * 60 + second t) * 1000000 + microsecond t.

Definition valid_time (t : datetime) : Prop :=
  check_time_fields (hour t) (minute t) (second t) (microsecond t) = true.

(** The overview of a co-term organization is usable: it was fetched and
    its expiration text parses. *)
Definition overview_ok (tznames : list string)
  (api_getOrganizationLicensesOverview : value -> result Overview)
  (id : value) : Prop :=
  exists (status : value) (s : string) (target : datetime),
    api_getOrganizationLicensesOverview id = Ok (mkOverview status (VStr s))
    /\ strptime_bdYZ tznames s = Some target.

(** The records of a per-device organization, one for each of the
    licenses that the dashboard lists for it. *)
Definition licenses_of
  (api_getOrganizationLicenses : value -> result (list License))
  (api_getNetwork : value -> result Network)
  (org : Org) (records : list dict) : Prop :=
  exists licenses : list License,
    api_getOrganizationLicenses (org_id org) = Ok licenses
    /\ Forall2 (made_for api_getNetwork (org_name org) (org_id org))
               licenses records.

(** The values of a record, as the cells of a row. *)
Definition cells (record : dict) : list (option value) :=
  map (fun kv => Some (snd kv)) record.

(** ** A sample run

    A dashboard with a co-term organization, an organization of another
    model and a per-device organization with two licenses, on the first
    of October 2025 at half past nine. *)

Module Demo.

Definition orgs : list Org :=
  [mkOrg (VStr "A") (VStr "1") (VStr "co-term");
   mkOrg (VStr "B") (VStr "2") (VStr "enterprise");
   mkOrg (VStr "C") (VStr "3") (VStr "per-device")].

Definition licenses : list License :=
  [mkLicense (VStr "ENT") (VStr "unused") VNone VNone VNone VNone;
   mkLicense (VStr "ENT") (VStr "active") (VStr "2025-10-06T00:00:00Z")
             (VInt 5) (VStr "Q2XX-1234") (VStr "N_1")].

Definition clock (n : nat) : datetime := mkDatetime 2025 10 1 9 30 0 0.

Definition overview (id : value) : result Overview :=
  Ok (mkOverview (VStr "OK") (VStr "Oct 6, 2025 UTC")).

Definition licenses_for (id : value) : result (list License) := Ok licenses.

Definition network (id : value) : result Network := Ok (mkNetwork (VStr "HQ")).

Definition run : result (list sheet) * world :=
  main [] clock (Ok orgs) overview licenses_for network w0.

Definition sheets : list sheet :=
  match fst run with
  | Ok sheets => sheets
  | Raise _ => []
  end.

End Demo.

(** * Properties *)

(** ** The models on concrete inputs *)

Example strptime_bdYZ_oct6 :
  strptime_bdYZ [] "Oct 6, 2025 UTC" = Some (mkDatetime 2025 10 6 0 0 0 0).
Proof. vm_compute. reflexivity. Qed.

Example strptime_bdYZ_lower_gmt :
  strptime_bdYZ [] "oct  06, 2025 gmt" = Some (mkDatetime 2025 10 6 0 0 0 0).
Proof. vm_compute. reflexivity. Qed.

Example strptime_bdYZ_no_zone : strptime_bdYZ [] "Oct 6, 2025" = None.
Proof. vm_compute. reflexivity. Qed.

Example strptime_bdY_feb30 : strptime_bdY "Feb 30, 2025" = None.
Proof. vm_compute. reflexivity. Qed.

Example strptime_bdY_left_over : strptime_bdY "Oct 6, 2025 UTC" = None.
Proof. vm_compute. reflexivity. Qed.

Example strptime_iso_ok :
  strptime_iso "2025-10-06T01:02:03Z" = Some (mkDatetime 2025 10 6 1 2 3 0).
Proof. vm_compute. reflexivity. Qed.

Example strftime_round :
  strftime_bdY (mkDatetime 2025 10 6 1 2 3 0) = "Oct 06, 2025".
Proof. vm_compute. reflexivity. Qed.

Example toordinal_2025 : toordinal (mkDatetime 2025 10 6 0 0 0 0) = 739530.
Proof. vm_compute. reflexivity. Qed.

(** ** Integers and their decimal text *)

Lemma str_parse (n : Z) : NilZero.int_of_string (str n) = Some (Z.to_int n).
Proof.
  unfold str. apply NilZero.isi; destruct n; simpl; try discriminate;
    intros [= H]; now apply DecimalPos.Unsigned.to_uint_nonnil in H.
Qed.

Lemma str_inj (a b : Z) : str a = str b -> a = b.
Proof.
  intros H. apply DecimalZ.to_int_inj.
  pose proof (str_parse a) as Ha. rewrite H, str_parse in Ha. congruence.
Qed.

Lemma str_not_NA (k : Z) : str k <> "N/A".
Proof.
  intros H. pose proof (str_parse k) as Hk. rewrite H in Hk. discriminate.
Qed.

(** ** Time differences *)

Lemma floor_days (D S U : Z) :
  (U + (S + D * 86400) * 1000000) / (86400 * 1000000)
  = D + (S + U / 1000000) / 86400.
Proof.
  rewrite (Z.mul_comm 86400 1000000), <- Z.div_div by lia.
  rewrite Z.div_add by lia.
  rewrite Z.add_assoc, Z.div_add by lia.
  rewrite (Z.add_comm (U / 1000000) S). lia.
Qed.

(** The [days] of a difference of datetimes is the floor of the distance
    of the two instants, counted in days. *)
Lemma days_datetime_sub (a b : datetime) :
  days (datetime_sub a b) = (instant a - instant b) / usec_per_day.
Proof.
  unfold datetime_sub, timedelta_new, instant, usec_per_day. cbn [days].
  rewrite <- floor_days. f_equal. ring.
Qed.

(** ** C1, C10: the expiration calculator *)

Section Calculator.
Variable tznames : list string.
Variable clock : nat -> datetime.

(** The calculator on a text that parses: one reading of the clock, then
    the text of the floor of the distance in days, or ["N/A"]. *)
Lemma get_days_remaining_run (s : string) (target : datetime) (w : world) :
  strptime_bdYZ tznames s = Some target ->
  get_days_remaining tznames clock (VStr s) w
  = (Ok (let d := (instant target - instant (clock (ticks w))) / usec_per_day in
         if 0 <? d then VStr (str d) else NA), tick w).
Proof.
  intros H. unfold get_days_remaining, Report.bind, utcnow, lift, strptime_value.
  rewrite H. cbv zeta. rewrite days_datetime_sub. reflexivity.
Qed.

(** C1. For a timestamp that parses under ['%b %d, %Y %Z'],
    [get_days_remaining] returns the decimal text of the whole-day
    difference (the floor of target minus now, in days) when it is
    strictly positive and ["N/A"] otherwise; the output is never the text
    of zero or of a negative integer. *)
Theorem get_days_remaining_positive_or_NA
  (s : string) (target : datetime) (w : world) :
  strptime_bdYZ tznames s = Some target ->
  let now := clock (ticks w) in
  let d := (instant target - instant now) / usec_per_day in
  exists out : string,
    get_days_remaining tznames clock (VStr s) w = (Ok (VStr out), tick w)
    /\ (0 < d -> out = str d)
    /\ (d <= 0 -> out = "N/A")
    /\ (forall k : Z, k <= 0 -> out <> str k).
Proof.
  intros H now d. rewrite (get_days_remaining_run s target w H).
  fold now. fold d. cbv zeta. destruct (0 <? d) eqn:E.
  - apply Z.ltb_lt in E. exists (str d). repeat split.
    + lia.
    + intros k Hk Heq. apply str_inj in Heq. lia.
  - apply Z.ltb_ge in E. exists "N/A". repeat split.
    + lia.
    + intros k _ Heq. symmetry in Heq. now apply str_not_NA in Heq.
Qed.

(** C10. A timestamp that is strictly in the future but less than one day
    ahead of the clock yields ["N/A"]: the difference is floored to zero
    whole days. *)
Theorem get_days_remaining_under_one_day
  (s : string) (target : datetime) (w : world) :
  strptime_bdYZ tznames s = Some target ->
  instant (clock (ticks w)) < instant target ->
  instant target - instant (clock (ticks w)) < usec_per_day ->
  days (datetime_sub target (clock (ticks w))) = 0
  /\ get_days_remaining tznames clock (VStr s) w = (Ok (VStr "N/A"), tick w).
Proof.
  intros H Hlo Hhi.
  assert (E : (instant target - instant (clock (ticks w))) / usec_per_day = 0).
  { apply Z.div_small. lia. }
  split.
  - now rewrite days_datetime_sub.
  - rewrite (get_days_remaining_run s target w H). cbv zeta. now rewrite E.
Qed.

End Calculator.

Lemma get_days_remaining_positive_or_NA_witness :
  exists out : string,
    get_days_remaining [] (fun _ => mkDatetime 2025 10 1 0 0 0 0)
                       (VStr "Oct 6, 2025 UTC") w0
    = (Ok (VStr out), tick w0)
    /\ (0 < 5 -> out = str 5)
    /\ (5 <= 0 -> out = "N/A")
    /\ (forall k : Z, k <= 0 -> out <> str k).
Proof.
  exact (get_days_remaining_positive_or_NA
           [] (fun _ => mkDatetime 2025 10 1 0 0 0 0)
           "Oct 6, 2025 UTC" (mkDatetime 2025 10 6 0 0 0 0) w0 eq_refl).
Defined.

Lemma get_days_remaining_under_one_day_witness :
  days (datetime_sub (mkDatetime 2025 10 6 0 0 0 0)
                     (mkDatetime 2025 10 5 0 0 0 1)) = 0
  /\ get_days_remaining [] (fun _ => mkDatetime 2025 10 5 0 0 0 1)
                        (VStr "Oct 6, 2025 UTC") w0
     = (Ok (VStr "N/A"), tick w0).
Proof.
  apply (get_days_remaining_under_one_day
           [] (fun _ => mkDatetime 2025 10 5 0 0 0 1)
           "Oct 6, 2025 UTC" (mkDatetime 2025 10 6 0 0 0 0) w0).
  - vm_compute. reflexivity.
  - vm_compute. reflexivity.
  - vm_compute. reflexivity.
Defined.

(** ** C4: the co-term normalizer *)

Lemma prefix_UTC_app (x : string) :
  x <> "" -> String.prefix "UTC" (x ++ " UTC") = String.prefix "UTC" x.
Proof.
  destruct x as [|a [|b [|c x]]]; intros Hx; try congruence;
    cbn [String.prefix append];
    repeat (destruct (ascii_dec _ _); subst; try reflexivity; try discriminate).
  now destruct x.
Qed.

Lemma replace_UTC_suffix (date : string) :
  occurs "UTC" date = false ->
  replace "UTC" "" (date ++ " UTC") = date ++ " ".
Proof.
  unfold replace. induction date as [|c d IH]; intros H.
  - reflexivity.
  - cbn [occurs] in H. apply orb_false_iff in H. destruct H as [Hp Ho].
    change (String c d ++ " UTC") with (String c (d ++ " UTC")).
    cbn [replace_from].
    change (String c (d ++ " UTC")) with (String c d ++ " UTC").
    rewrite prefix_UTC_app by discriminate. rewrite Hp.
    rewrite (IH Ho). reflexivity.
Qed.

Lemma rstrip_app (x y : string) :
  rstrip y <> "" -> rstrip (x ++ y) = x ++ rstrip y.
Proof.
  intros Hy. induction x as [|c x IH]; [reflexivity|].
  cbn [append rstrip]. rewrite IH.
  destruct (x ++ rstrip y) eqn:E; [|reflexivity].
  destruct x; cbn in E; [congruence | discriminate].
Qed.

Lemma has_space_app_UTC (x : string) : has_space (x ++ " UTC") = true.
Proof.
  induction x as [|c x IH]; [reflexivity|].
  cbn [append has_space]. rewrite IH. apply orb_true_r.
Qed.

Lemma drop_last_token_UTC (x : string) :
  drop_last_token (x ++ " UTC") = x ++ " ".
Proof.
  induction x as [|c x IH]; [reflexivity|].
  cbn [append drop_last_token]. now rewrite has_space_app_UTC, IH.
Qed.

(** On a text that ends in the word [UTC] and holds no other [UTC], the
    display of the code is the display of the specification. *)
Lemma display_UTC (date : string) :
  occurs "UTC" date = false ->
  strip (replace "UTC" "" (date ++ " UTC")) = without_zone_token (date ++ " UTC").
Proof.
  intros H. unfold without_zone_token.
  rewrite (replace_UTC_suffix date H).
  rewrite rstrip_app by (vm_compute; discriminate).
  change (rstrip " UTC") with " UTC".
  now rewrite drop_last_token_UTC.
Qed.

Section CoTerm.
Variable tznames : list string.
Variable clock : nat -> datetime.
Variable api_getOrganizationLicensesOverview : value -> result Overview.

Lemma co_term_license_run
  (name id status : value) (s : string) (target : datetime) (w : world) :
  api_getOrganizationLicensesOverview id = Ok (mkOverview status (VStr s)) ->
  strptime_bdYZ tznames s = Some target ->
  let w1 := log (GetOrganizationLicensesOverview id) w in
  exists remaining : value,
    get_days_remaining tznames clock (VStr s) w1 = (Ok remaining, tick w1)
    /\ co_term_license tznames clock api_getOrganizationLicensesOverview name id w
       = (Ok [("Org. Name", name); ("Org. ID", id); ("License Status", status);
              ("License Expiration", VStr (strip (replace "UTC" "" s)));
              ("Days Remaining", remaining)], tick w1).
Proof.
  intros Hapi Hparse w1.
  pose proof (get_days_remaining_run tznames clock s target w1 Hparse) as Hrun.
  eexists. split; [exact Hrun|].
  unfold co_term_license, Report.bind, getOrganizationLicensesOverview.
  rewrite Hapi. cbn [ov_status ov_expirationDate Report.ret].
  fold w1. rewrite Hrun. reflexivity.
Qed.

(** C4, as amended. The display of a co-term record is the fetched text
    with every [UTC] removed and then trimmed, and its days remaining is
    the calculator applied to the text as fetched; when the text is a date
    followed by the word [UTC], the display is the text without its zone
    word, trimmed. *)
Theorem co_term_license_display_and_days
  (name id status : value) (s : string) (target : datetime) (w : world) :
  api_getOrganizationLicensesOverview id = Ok (mkOverview status (VStr s)) ->
  strptime_bdYZ tznames s = Some target ->
  let w1 := log (GetOrganizationLicensesOverview id) w in
  exists (record : dict) (remaining : value),
    co_term_license tznames clock api_getOrganizationLicensesOverview name id w
    = (Ok record, tick w1)
    /\ dict_get "License Expiration" record
       = Some (VStr (strip (replace "UTC" "" s)))
    /\ get_days_remaining tznames clock (VStr s) w1 = (Ok remaining, tick w1)
    /\ dict_get "Days Remaining" record = Some remaining
    /\ (forall date : string,
          s = date ++ " UTC" -> occurs "UTC" date = false ->
          dict_get "License Expiration" record
          = Some (VStr (without_zone_token s))).
Proof.
  intros Hapi Hparse w1.
  destruct (co_term_license_run name id status s target w Hapi Hparse)
    as [remaining [Hrem Hrun]].
  eexists. exists remaining. split; [exact Hrun|].
  split; [reflexivity|]. split; [exact Hrem|]. split; [reflexivity|].
  intros date -> Hocc. cbn [dict_get String.eqb Ascii.eqb Bool.eqb].
  now rewrite (display_UTC date Hocc).
Qed.

End CoTerm.

Lemma co_term_license_display_and_days_witness :
  let w1 := log (GetOrganizationLicensesOverview (VStr "1")) w0 in
  exists (record : dict) (remaining : value),
    co_term_license [] (fun _ => mkDatetime 2025 10 1 0 0 0 0)
      (fun _ => Ok (mkOverview (VStr "OK") (VStr "Oct 6, 2025 UTC")))
      (VStr "Acme") (VStr "1") w0
    = (Ok record, tick w1)
    /\ dict_get "License Expiration" record
       = Some (VStr (strip (replace "UTC" "" "Oct 6, 2025 UTC")))
    /\ get_days_remaining [] (fun _ => mkDatetime 2025 10 1 0 0 0 0)
         (VStr "Oct 6, 2025 UTC") w1 = (Ok remaining, tick w1)
    /\ dict_get "Days Remaining" record = Some remaining
    /\ (forall date : string,
          "Oct 6, 2025 UTC" = date ++ " UTC" -> occurs "UTC" date = false ->
          dict_get "License Expiration" record
          = Some (VStr (without_zone_token "Oct 6, 2025 UTC"))).
Proof.
  exact (co_term_license_display_and_days
           [] (fun _ => mkDatetime 2025 10 1 0 0 0 0)
           (fun _ => Ok (mkOverview (VStr "OK") (VStr "Oct 6, 2025 UTC")))
           (VStr "Acme") (VStr "1") (VStr "OK") "Oct 6, 2025 UTC"
           (mkDatetime 2025 10 6 0 0 0 0) w0 eq_refl eq_refl).
Defined.

(** C4 as stated fails: a text with the zone word [GMT] is accepted by
    the calculator (five days remain) and keeps its zone word in the
    display. *)
Lemma co_term_license_keeps_GMT :
  let s := "Oct 6, 2025 GMT" in
  co_term_license [] (fun _ => mkDatetime 2025 10 1 0 0 0 0)
    (fun _ => Ok (mkOverview (VStr "OK") (VStr s))) (VStr "Acme") (VStr "1") w0
  = (Ok [("Org. Name", VStr "Acme"); ("Org. ID", VStr "1");
         ("License Status", VStr "OK");
         ("License Expiration", VStr "Oct 6, 2025 GMT");
         ("Days Remaining", VStr "5")],
     tick (log (GetOrganizationLicensesOverview (VStr "1")) w0))
  /\ without_zone_token s = "Oct 6, 2025"
  /\ VStr "Oct 6, 2025 GMT" <> VStr (without_zone_token s).
Proof.
  repeat split; try (vm_compute; reflexivity).
  vm_compute. discriminate.
Qed.

(** ** C3, C6, C7: the per-device normalizer *)

Section PerDevice.
Variable api_getOrganizationLicenses : value -> result (list License).
Variable api_getNetwork : value -> result Network.
Variables name id : value.

Lemma entry_absent (license : License) (w : world) :
  truthy (expirationDate license) = false ->
  per_device_entry api_getNetwork name id license w = (Ok (default_record name id license), w).
Proof.
  intros H. unfold per_device_entry. now rewrite H.
Qed.

Lemma entry_present (license : License) (t : datetime) (n : Network) (w : world) :
  truthy (expirationDate license) = true ->
  strptime_value strptime_iso (expirationDate license) = Ok t ->
  api_getNetwork (networkId license) = Ok n ->
  per_device_entry api_getNetwork name id license w
  = (Ok (dated_record name id license t n), log (GetNetwork (networkId license)) w).
Proof.
  intros H Ht Hn. unfold per_device_entry, Report.bind, lift, getNetwork.
  now rewrite H, Ht, Hn.
Qed.

(** Every way in which the body of the loop can return a record. *)
Lemma entry_inv (license : License) (w w' : world) (record : dict) :
  per_device_entry api_getNetwork name id license w = (Ok record, w') ->
  (truthy (expirationDate license) = false
   /\ record = default_record name id license /\ w' = w)
  \/ (truthy (expirationDate license) = true
      /\ exists (t : datetime) (n : Network),
           strptime_value strptime_iso (expirationDate license) = Ok t
           /\ api_getNetwork (networkId license) = Ok n
           /\ record = dated_record name id license t n
           /\ w' = log (GetNetwork (networkId license)) w).
Proof.
  unfold per_device_entry, Report.bind, lift, getNetwork.
  destruct (truthy (expirationDate license)) eqn:H.
  - destruct (strptime_value strptime_iso (expirationDate license)) as [t|e];
      [|discriminate].
    destruct (api_getNetwork (networkId license)) as [n|e]; [|discriminate].
    intros [= <- <-]. right. split; [reflexivity|]. now exists t, n.
  - intros [= <- <-]. now left.
Qed.



Lemma loop_inv (licenses : list License) :
  forall (acc : list dict) (w : world) (records : list dict) (w' : world),
    per_device_loop api_getNetwork name id licenses acc w = (Ok records, w') ->
    exists new : list dict,
      records = (acc ++ new)%list /\ Forall2 (made_for api_getNetwork name id) licenses new.
Proof.
  induction licenses as [|license rest IH]; intros acc w records w' Hrun.
  - cbn in Hrun. injection Hrun as <- <-. exists []. split.
    + now rewrite app_nil_r.
    + constructor.
  - cbn [per_device_loop] in Hrun. unfold Report.bind in Hrun.
    destruct (per_device_entry api_getNetwork name id license w)
      as [[record|e] w1] eqn:E; [|discriminate].
    destruct (IH _ _ _ _ Hrun) as [new [-> Hnew]].
    exists (record :: new). split.
    + now rewrite <- app_assoc.
    + constructor; [|exact Hnew].
      destruct (entry_inv license w w1 record E)
        as [[Hf [-> _]] | [Ht [t [n [H1 [H2 [-> _]]]]]]].
      * now left.
      * right. split; [exact Ht|]. now exists t, n.
Qed.

Lemma loop_total (licenses : list License) :
  Forall (entry_ok api_getNetwork) licenses ->
  forall (acc : list dict) (w : world),
    exists (records : list dict) (w' : world),
      per_device_loop api_getNetwork name id licenses acc w = (Ok records, w').
Proof.
  induction 1 as [|license rest Hok _ IH]; intros acc w.
  - now exists acc, w.
  - cbn [per_device_loop]. unfold Report.bind.
    destruct (truthy (expirationDate license)) eqn:Ht.
    + destruct (Hok Ht) as [[t Hparse] [n Hnet]].
      rewrite (entry_present license t n w Ht Hparse Hnet). apply IH.
    + rewrite (entry_absent license w Ht). apply IH.
Qed.

Lemma made_for_fields (license : License) (record : dict) :
  made_for api_getNetwork name id license record ->
  dict_get "License Type" record = Some (licenseType license)
  /\ dict_get "License Status" record = Some (state license).
Proof.
  intros [[_ ->] | [_ [t [n [_ [_ ->]]]]]]; split; reflexivity.
Qed.

(** C7. For an organization with the license entries [licenses],
    [per_device_license] returns exactly one record for each entry, in
    the order of the entries, entries without an expiration date
    included; it does return whenever no entry has an unparsable date or
    a failing network lookup. *)
Theorem per_device_license_one_record_per_entry
  (licenses : list License) (w : world) :
  api_getOrganizationLicenses id = Ok licenses ->
  (forall (records : list dict) (w' : world),
      per_device_license api_getOrganizationLicenses api_getNetwork name id w
      = (Ok records, w') ->
      List.length records = List.length licenses
      /\ Forall2 (fun license record =>
                    dict_get "License Type" record = Some (licenseType license)
                    /\ dict_get "License Status" record = Some (state license))
                 licenses records)
  /\ (Forall (fun license =>
                truthy (expirationDate license) = true ->
                (exists t : datetime,
                    strptime_value strptime_iso (expirationDate license) = Ok t)
                /\ (exists n : Network,
                       api_getNetwork (networkId license) = Ok n))
             licenses ->
      exists (records : list dict) (w' : world),
        per_device_license api_getOrganizationLicenses api_getNetwork name id w
        = (Ok records, w')).
Proof.
  intros Hapi.
  unfold per_device_license, Report.bind, getOrganizationLicenses.
  rewrite Hapi. split.
  - intros records w' Hrun.
    destruct (loop_inv licenses _ _ _ _ Hrun) as [new [-> Hnew]].
    cbn [app]. split.
    + symmetry. exact (Forall2_length Hnew).
    + eapply Forall2_impl; [|exact Hnew].
      intros license record. apply made_for_fields.
  - intros Hok. now apply loop_total.
Qed.

End PerDevice.



Lemma per_device_license_one_record_per_entry_witness :
  let dated :=
    mkLicense (VStr "ENT") (VStr "active") (VStr "2025-10-06T00:00:00Z")
              (VInt 5) (VStr "Q2XX-1234") (VStr "N_1") in
  let undated := mkLicense (VStr "ENT") (VStr "unused") VNone VNone VNone VNone in
  let licenses := [undated; dated; undated] in
  let api1 := fun _ : value => Ok licenses in
  let api2 := fun _ : value => Ok (mkNetwork (VStr "HQ")) in
  (forall (records : list dict) (w' : world),
      per_device_license api1 api2 (VStr "Acme") (VStr "7") w0
      = (Ok records, w') ->
      List.length records = 3%nat
      /\ Forall2 (fun license record =>
                    dict_get "License Type" record = Some (licenseType license)
                    /\ dict_get "License Status" record = Some (state license))
                 licenses records)
  /\ (Forall (fun license =>
                truthy (expirationDate license) = true ->
                (exists t : datetime,
                    strptime_value strptime_iso (expirationDate license) = Ok t)
                /\ (exists n : Network, api2 (networkId license) = Ok n))
             licenses ->
      exists (records : list dict) (w' : world),
        per_device_license api1 api2 (VStr "Acme") (VStr "7") w0
        = (Ok records, w')).
Proof.
  intros dated undated licenses api1 api2.
  exact (per_device_license_one_record_per_entry
           api1 api2 (VStr "Acme") (VStr "7") licenses w0 eq_refl).
Defined.

(** ** C5: the dispatcher *)

Lemma value_eqb_eq (a b : value) : value_eqb a b = true -> a = b.
Proof.
  destruct a, b; cbn; try discriminate; intros H.
  - reflexivity.
  - apply String.eqb_eq in H. now subst.
  - apply Z.eqb_eq in H. now subst.
Qed.

Lemma coterm_not_per_device (org : Org) :
  is_coterm org = true -> is_per_device org = false.
Proof.
  unfold is_coterm, is_per_device. intros H.
  apply value_eqb_eq in H. now rewrite H.
Qed.

Section Dispatch.
Variable tznames : list string.
Variable clock : nat -> datetime.
Variable api_getOrganizationLicensesOverview : value -> result Overview.
Variable api_getOrganizationLicenses : value -> result (list License).
Variable api_getNetwork : value -> result Network.

Lemma co_term_license_inv (name id : value) (w w' : world) (record : dict) :
  co_term_license tznames clock api_getOrganizationLicensesOverview name id w
  = (Ok record, w') ->
  exists status display remaining : value,
    record = [("Org. Name", name); ("Org. ID", id); ("License Status", status);
              ("License Expiration", display); ("Days Remaining", remaining)].
Proof.
  unfold co_term_license, Report.bind, getOrganizationLicensesOverview.
  destruct (api_getOrganizationLicensesOverview id) as [ov|e]; [|discriminate].
  destruct (ov_expirationDate ov) as [|s|n]; try discriminate.
  cbn [Report.ret].
  destruct (get_days_remaining tznames clock (VStr s) _) as [[remaining|e] w1];
    [|discriminate].
  intros [= <- <-]. now eexists _, _, remaining.
Qed.

Lemma per_device_license_inv (name id : value) (w w' : world)
  (records : list dict) :
  per_device_license api_getOrganizationLicenses api_getNetwork name id w
  = (Ok records, w') ->
  Forall (fun record =>
            exists license : License,
              made_for api_getNetwork name id license record) records.
Proof.
  unfold per_device_license, Report.bind, getOrganizationLicenses.
  destruct (api_getOrganizationLicenses id) as [licenses|e]; [|discriminate].
  intros Hrun. destruct (loop_inv _ _ _ _ _ _ _ _ Hrun) as [new [-> Hnew]].
  clear Hrun. cbn [app].
  induction Hnew as [|license record ls rs Hm _ IH]; constructor.
  - now exists license.
  - exact IH.
Qed.



Lemma dispatch_inv (orgs : list Org) :
  forall (c0 : list dict) (p0 : list (list dict)) (w : world)
         (c : list dict) (p : list (list dict)) (w' : world),
    dispatch tznames clock api_getOrganizationLicensesOverview
      api_getOrganizationLicenses api_getNetwork orgs (c0, p0) w = (Ok (c, p), w') ->
    exists (c1 : list dict) (p1 : list (list dict)),
      c = (c0 ++ c1)%list /\ p = (p0 ++ p1)%list
      /\ Forall2 coterm_record (filter is_coterm orgs) c1
      /\ Forall2 (fun org records =>
                    Forall (per_device_record api_getNetwork org) records)
                 (filter is_per_device orgs) p1.
Proof.
  induction orgs as [|org rest IH]; intros c0 p0 w c p w' Hrun.
  - cbn in Hrun. injection Hrun as <- <- <-. exists [], [].
    rewrite !app_nil_r. repeat split; constructor.
  - cbn [dispatch] in Hrun. unfold Report.bind in Hrun.
    cbn [filter]. unfold dispatch_org in Hrun. fold (is_coterm org) in Hrun.
    fold (is_per_device org) in Hrun.
    destruct (is_coterm org) eqn:Hc.
    + rewrite (coterm_not_per_device org Hc). unfold Report.bind in Hrun.
      destruct (co_term_license _ _ _ _ _ w) as [[record|e] w1] eqn:E;
        [|discriminate].
      cbn [Report.ret] in Hrun.
      destruct (IH _ _ _ _ _ _ Hrun) as [c1 [p1 [-> [-> [H1 H2]]]]].
      exists (record :: c1), p1. rewrite <- app_assoc.
      repeat split; try assumption. constructor; [|exact H1].
      exact (co_term_license_inv _ _ _ _ _ E).
    + destruct (is_per_device org) eqn:Hp.
      * unfold Report.bind in Hrun.
        destruct (per_device_license _ _ _ _ w) as [[records|e] w1] eqn:E;
          [|discriminate].
        cbn [Report.ret] in Hrun.
        destruct (IH _ _ _ _ _ _ Hrun) as [c1 [p1 [-> [-> [H1 H2]]]]].
        exists c1, (records :: p1). rewrite <- app_assoc.
        repeat split; try assumption. constructor; [|exact H2].
        exact (per_device_license_inv _ _ _ _ _ E).
      * cbn [Report.ret] in Hrun. exact (IH _ _ _ _ _ _ Hrun).
Qed.




End Dispatch.


(** ** The stable sort *)

Section SortFacts.
Context {K A : Type}.
Variable ltb : K -> K -> bool.
Hypothesis ltb_asym : forall a b : K, ltb a b = true -> ltb b a = false.
Hypothesis ltb_negtrans :
  forall a b c : K, ltb a c = true -> ltb a b = true \/ ltb b c = true.

Lemma ltb_irrefl (a : K) : ltb a a = false.
Proof.
  destruct (ltb a a) eqn:E; [|reflexivity]. now rewrite (ltb_asym a a E) in E.
Qed.

Lemma insert_by_perm (x : K * A) (l : list (K * A)) :
  Permutation (x :: l) (insert_by ltb x l).
Proof.
  induction l as [|y l IH]; cbn [insert_by]; [reflexivity|].
  destruct (ltb (fst y) (fst x)); [|reflexivity].
  rewrite perm_swap. now constructor.
Qed.

Lemma sort_decorated_perm (l : list (K * A)) :
  Permutation l (sort_decorated ltb l).
Proof.
  induction l as [|x l IH]; cbn [sort_decorated]; [constructor|].
  rewrite <- insert_by_perm. now constructor.
Qed.

Lemma insert_by_sorted (x : K * A) (l : list (K * A)) :
  StronglySorted (no_inversion ltb) l ->
  StronglySorted (no_inversion ltb) (insert_by ltb x l).
Proof.
  induction 1 as [|y l Hl IH Hy]; cbn [insert_by].
  - repeat constructor.
  - destruct (ltb (fst y) (fst x)) eqn:E.
    + constructor; [exact IH|].
      rewrite <- insert_by_perm. constructor; [|exact Hy].
      unfold no_inversion. now apply ltb_asym.
    + constructor; [now constructor|]. constructor; [exact E|].
      rewrite Forall_forall in Hy |- *. intros z Hz.
      unfold no_inversion in *. specialize (Hy z Hz).
      destruct (ltb (fst z) (fst x)) eqn:Ez; [|reflexivity].
      destruct (ltb_negtrans _ (fst y) _ Ez); congruence.
Qed.

Lemma sort_decorated_sorted (l : list (K * A)) :
  StronglySorted (no_inversion ltb) (sort_decorated ltb l).
Proof.
  induction l as [|x l IH]; cbn [sort_decorated];
    [constructor | now apply insert_by_sorted].
Qed.

(** Sorting a list that is in order returns it. *)
Lemma sort_decorated_fixed (l : list (K * A)) :
  StronglySorted (no_inversion ltb) l -> sort_decorated ltb l = l.
Proof.
  induction 1 as [|x l Hl IH Hx]; [reflexivity|].
  cbn [sort_decorated]. rewrite IH. destruct l as [|y l]; [reflexivity|].
  cbn [insert_by]. inversion Hx as [|? ? Hy _]; subst.
  unfold no_inversion in Hy. now rewrite Hy.
Qed.

Lemma sort_decorated_idem (l : list (K * A)) :
  sort_decorated ltb (sort_decorated ltb l) = sort_decorated ltb l.
Proof. apply sort_decorated_fixed, sort_decorated_sorted. Qed.

Variable eqb : K -> K -> bool.
Hypothesis eqb_eq : forall a b : K, eqb a b = true -> a = b.

(** Elements of equal keys keep their order. *)
Lemma insert_by_stable (k : K) (x : K * A) (l : list (K * A)) :
  filter (fun p => eqb (fst p) k) (insert_by ltb x l)
  = filter (fun p => eqb (fst p) k) (x :: l).
Proof.
  induction l as [|y l IH]; cbn [insert_by]; [reflexivity|].
  destruct (ltb (fst y) (fst x)) eqn:E; [|reflexivity].
  cbn [filter] in *. rewrite IH.
  destruct (eqb (fst y) k) eqn:Ey; destruct (eqb (fst x) k) eqn:Ex;
    try reflexivity.
  apply eqb_eq in Ey, Ex. rewrite Ey, Ex, ltb_irrefl in E. discriminate.
Qed.

Lemma sort_decorated_stable (k : K) (l : list (K * A)) :
  filter (fun p => eqb (fst p) k) (sort_decorated ltb l)
  = filter (fun p => eqb (fst p) k) l.
Proof.
  induction l as [|x l IH]; [reflexivity|].
  cbn [sort_decorated]. rewrite insert_by_stable. cbn [filter]. now rewrite IH.
Qed.

End SortFacts.

Lemma StronglySorted_nth {A : Type} (R : A -> A -> Prop) (l : list A) :
  StronglySorted R l ->
  forall (i j : nat) (x y : A),
    (i < j)%nat -> nth_error l i = Some x -> nth_error l j = Some y -> R x y.
Proof.
  induction 1 as [|a l Hl IH Ha]; intros i j x y Hij Hi Hj.
  - destruct i; discriminate.
  - destruct j as [|j]; [lia|]. cbn in Hj. destruct i as [|i].
    + cbn in Hi. injection Hi as <-. rewrite Forall_forall in Ha.
      apply Ha. eapply nth_error_In, Hj.
    + cbn in Hi. apply (IH i j); [lia | assumption | assumption].
Qed.

(** ** The order of datetimes *)

Lemma lex_ltb_asym (a : list Z) :
  forall b : list Z, lex_ltb a b = true -> lex_ltb b a = false.
Proof.
  induction a as [|x a IH]; intros [|y b]; cbn [lex_ltb]; try easy.
  destruct (Z.ltb_spec x y), (Z.ltb_spec y x), (Z.eqb_spec x y),
    (Z.eqb_spec y x); cbn; try lia; try easy.
  apply IH.
Qed.

Lemma lex_ltb_negtrans (a : list Z) :
  forall b c : list Z,
    lex_ltb a c = true -> lex_ltb a b = true \/ lex_ltb b c = true.
Proof.
  induction a as [|x a IH]; intros [|y b] [|z c]; cbn [lex_ltb]; auto;
    try discriminate.
  destruct (Z.ltb_spec x z), (Z.ltb_spec x y), (Z.ltb_spec y z),
    (Z.eqb_spec x z), (Z.eqb_spec x y), (Z.eqb_spec y z);
    cbn; auto; try lia; try discriminate.
Qed.

Lemma datetime_ltb_asym (a b : datetime) :
  datetime_ltb a b = true -> datetime_ltb b a = false.
Proof. apply lex_ltb_asym. Qed.

Lemma datetime_ltb_negtrans (a b c : datetime) :
  datetime_ltb a c = true -> datetime_ltb a b = true \/ datetime_ltb b c = true.
Proof. apply lex_ltb_negtrans. Qed.

Lemma datetime_eqb_eq (a b : datetime) : datetime_eqb a b = true -> a = b.
Proof.
  destruct a, b. unfold datetime_eqb. cbn.
  rewrite !andb_true_iff, !Z.eqb_eq. intuition congruence.
Qed.

(** A date read by the sort key is before [datetime.max]. *)
Lemma strptime_bdY_lt_max (s : string) (t : datetime) :
  strptime_bdY s = Some t -> datetime_ltb t datetime_max = true.
Proof.
  unfold strptime_bdY. destruct (full_match re_bdY s) as [[[y m] d]|];
    [|discriminate].
  unfold date_of, datetime_new.
  destruct (check_date_fields y m d) eqn:C; [|discriminate].
  cbn [andb check_time_fields]. intros [= <-].
  unfold check_date_fields, MINYEAR, MAXYEAR in C.
  rewrite !andb_true_iff, !Z.leb_le in C.
  destruct C as [[[[[_ Hy] _] Hm] _] Hd].
  unfold datetime_ltb, datetime_max, fields. cbn [lex_ltb year month day hour].
  destruct (Z.ltb_spec y 9999); [reflexivity|].
  destruct (Z.eqb_spec y 9999); [|lia]. cbn [orb andb].
  destruct (Z.ltb_spec m 12); [reflexivity|].
  destruct (Z.eqb_spec m 12); [|lia]. cbn [orb andb]. subst m.
  change (days_in_month y 12) with 31 in Hd.
  destruct (Z.ltb_spec d 31); [reflexivity|].
  destruct (Z.eqb_spec d 31); [|lia]. reflexivity.
Qed.

(** ** C2, C8: the sort of a bucket *)

Lemma expiration_key_NA (item : dict) :
  dict_get "License Expiration" item = Some NA ->
  expiration_key item = Ok datetime_max.
Proof. unfold expiration_key. now intros ->. Qed.

Lemma expiration_key_date (item : dict) (s : string) (t : datetime) :
  dict_get "License Expiration" item = Some (VStr s) ->
  strptime_bdY s = Some t ->
  expiration_key item = Ok t.
Proof.
  unfold expiration_key. intros -> Ht. cbn [value_eqb NA].
  destruct (String.eqb_spec s "N/A") as [->|_].
  - vm_compute in Ht. discriminate.
  - cbn. now rewrite Ht.
Qed.

Lemma decorate_inv (l : list dict) :
  forall d : list (datetime * dict),
    decorate l = Ok d -> map snd d = l /\ Forall keyed d.
Proof.
  induction l as [|item l IH]; intros d; cbn [decorate].
  - intros [= <-]. split; constructor.
  - destruct (expiration_key item) as [k|e] eqn:Ek; [|discriminate].
    cbn [rbind]. destruct (decorate l) as [d'|e]; [|discriminate].
    cbn [rbind]. intros [= <-]. destruct (IH d' eq_refl) as [Hm Hk].
    split; [cbn; now rewrite Hm | now constructor].
Qed.

Lemma decorate_keyed (d : list (datetime * dict)) :
  Forall keyed d -> decorate (map snd d) = Ok d.
Proof.
  induction 1 as [|[k item] d Hp _ IH]; [reflexivity|].
  cbn [map snd decorate]. unfold keyed in Hp. cbn in Hp.
  now rewrite Hp, IH.
Qed.

Lemma decorate_total (l : list dict) :
  Forall (fun item => exists k, expiration_key item = Ok k) l ->
  exists d : list (datetime * dict), decorate l = Ok d.
Proof.
  induction 1 as [|item l [k Hk] _ [d IH]]; [now exists []|].
  exists ((k, item) :: d). cbn [decorate]. now rewrite Hk, IH.
Qed.

(** The result of a sort that returns, as a sorted list of keyed records. *)
Lemma sorted_by_expiration_inv (records out : list dict) :
  sorted_by_expiration records = Ok out ->
  exists d : list (datetime * dict),
    decorate records = Ok d
    /\ out = map snd (sort_decorated datetime_ltb d)
    /\ Forall keyed (sort_decorated datetime_ltb d)
    /\ StronglySorted (no_inversion datetime_ltb) (sort_decorated datetime_ltb d).
Proof.
  unfold sorted_by_expiration. destruct (decorate records) as [d|e] eqn:E;
    [|discriminate].
  cbn [rbind]. intros [= <-]. exists d. repeat split.
  - destruct (decorate_inv records d E) as [_ Hk].
    rewrite Forall_forall in Hk |- *. intros p Hp. apply Hk.
    eapply Permutation_in; [|exact Hp].
    symmetry. apply sort_decorated_perm.
  - apply sort_decorated_sorted.
    + exact datetime_ltb_asym.
    + exact datetime_ltb_negtrans.
Qed.

Lemma nth_error_keyed (d : list (datetime * dict)) (i : nat) (item : dict) :
  Forall keyed d ->
  nth_error (map snd d) i = Some item ->
  exists k : datetime,
    nth_error d i = Some (k, item) /\ expiration_key item = Ok k.
Proof.
  intros Hk Hi. rewrite nth_error_map in Hi.
  destruct (nth_error d i) as [[k item']|] eqn:E; [|discriminate].
  cbn in Hi. injection Hi as ->. exists k. split; [reflexivity|].
  rewrite Forall_forall in Hk. exact (Hk _ (nth_error_In _ _ E)).
Qed.

Lemma sorted_by_expiration_perm (records out : list dict) :
  sorted_by_expiration records = Ok out -> Permutation records out.
Proof.
  intros Hout.
  destruct (sorted_by_expiration_inv records out Hout) as [d [Hd [-> _]]].
  destruct (decorate_inv records d Hd) as [<- _].
  apply Permutation_map, sort_decorated_perm.
Qed.

(** C2. The key of a record whose display is ["N/A"] is [datetime.max],
    computed without parsing; the sort returns whenever each display is
    ["N/A"] or parses as ["Mon D, YYYY"]; and in what it returns, a
    reordering of the input, every ["N/A"] record stands after every
    record whose display parses. *)
Theorem sorted_NA_after_dates (records : list dict) :
  (forall item : dict,
      dict_get "License Expiration" item = Some (VStr "N/A") ->
      expiration_key item = Ok datetime_max)
  /\ (Forall (fun item =>
                dict_get "License Expiration" item = Some (VStr "N/A")
                \/ exists (s : string) (t : datetime),
                     dict_get "License Expiration" item = Some (VStr s)
                     /\ strptime_bdY s = Some t) records ->
      exists out : list dict, sorted_by_expiration records = Ok out)
  /\ (forall out : list dict,
        sorted_by_expiration records = Ok out ->
        Permutation records out
        /\ forall (i j : nat) (a b : dict) (s : string) (t : datetime),
             nth_error out i = Some a ->
             nth_error out j = Some b ->
             dict_get "License Expiration" a = Some (VStr "N/A") ->
             dict_get "License Expiration" b = Some (VStr s) ->
             strptime_bdY s = Some t ->
             (j < i)%nat).
Proof.
  split; [exact expiration_key_NA|]. split.
  - intros Hall. unfold sorted_by_expiration.
    destruct (decorate_total records) as [d ->]; [|now eexists].
    eapply Forall_impl; [|exact Hall].
    intros item [Hna | [s [t [Hs Ht]]]].
    + exists datetime_max. now apply expiration_key_NA.
    + exists t. now apply (expiration_key_date item s t).
  - intros out Hout.
    destruct (sorted_by_expiration_inv records out Hout)
      as [d [Hd [-> [Hk Hs]]]].
    split.
    + now apply sorted_by_expiration_perm.
    + intros i j a b s t Hi Hj Ha Hb Ht.
      destruct (nth_error_keyed _ i a Hk Hi) as [ka [Hia Hka]].
      destruct (nth_error_keyed _ j b Hk Hj) as [kb [Hjb Hkb]].
      rewrite (expiration_key_NA a Ha) in Hka. injection Hka as <-.
      rewrite (expiration_key_date b s t Hb Ht) in Hkb. injection Hkb as <-.
      pose proof (strptime_bdY_lt_max s t Ht) as Hlt.
      destruct (Nat.lt_trichotomy i j) as [Hij | [Hij | Hij]];
        [| |exact Hij].
      * pose proof (StronglySorted_nth _ _ Hs i j _ _ Hij Hia Hjb) as Hno.
        unfold no_inversion in Hno. cbn [fst] in Hno. congruence.
      * subst j. rewrite Hia in Hjb. injection Hjb as Heq _.
        rewrite <- Heq in Hlt.
        rewrite (ltb_irrefl datetime_ltb datetime_ltb_asym) in Hlt.
        discriminate.
Qed.

Lemma filter_map_snd (f : dict -> bool) (d : list (datetime * dict)) :
  filter f (map snd d) = map snd (filter (fun p => f (snd p)) d).
Proof.
  induction d as [|p d IH]; [reflexivity|].
  cbn [map filter]. rewrite IH. now destruct (f (snd p)).
Qed.

Lemma filter_has_key (k : datetime) (d : list (datetime * dict)) :
  Forall keyed d ->
  filter (has_key k) (map snd d)
  = map snd (filter (fun p => datetime_eqb (fst p) k) d).
Proof.
  intros Hk. rewrite filter_map_snd. f_equal.
  apply filter_ext_in. intros p Hp. rewrite Forall_forall in Hk.
  unfold has_key. now rewrite (Hk p Hp).
Qed.

(** C8. The sort of a bucket is stable: for every key, the records of
    that key (two ["N/A"] records among them) come out in the order in
    which they went in; and it is idempotent: sorting what it returned
    returns the same sequence. *)
Theorem sorted_stable_and_idempotent (records out : list dict) :
  sorted_by_expiration records = Ok out ->
  (forall k : datetime, filter (has_key k) out = filter (has_key k) records)
  /\ sorted_by_expiration out = Ok out.
Proof.
  intros Hout.
  destruct (sorted_by_expiration_inv records out Hout) as [d [Hd [-> [Hk Hs]]]].
  destruct (decorate_inv records d Hd) as [Hm Hkd].
  split.
  - intros k. rewrite (filter_has_key k _ Hk).
    rewrite (sort_decorated_stable datetime_ltb datetime_ltb_asym
               datetime_eqb datetime_eqb_eq).
    rewrite <- (filter_has_key k d Hkd). now rewrite Hm.
  - unfold sorted_by_expiration. rewrite (decorate_keyed _ Hk). cbn [rbind].
    now rewrite (sort_decorated_idem datetime_ltb datetime_ltb_asym
                   datetime_ltb_negtrans).
Qed.

Lemma sorted_NA_after_dates_witness :
  let na := [("Org. Name", VStr "A"); ("License Expiration", VStr "N/A")] in
  let dated := [("Org. Name", VStr "B"); ("License Expiration", VStr "Jan 1, 2026")] in
  sorted_by_expiration [na; dated] = Ok [dated; na]
  /\ Permutation [na; dated] [dated; na].
Proof.
  intros na dated. split; [vm_compute; reflexivity|].
  exact (proj1 (proj2 (proj2 (sorted_NA_after_dates [na; dated]))
                  [dated; na] eq_refl)).
Defined.

Lemma sorted_stable_and_idempotent_witness :
  let na1 := [("Org. Name", VStr "A"); ("License Expiration", VStr "N/A")] in
  let dated := [("Org. Name", VStr "B"); ("License Expiration", VStr "Jan 1, 2026")] in
  let na2 := [("Org. Name", VStr "C"); ("License Expiration", VStr "N/A")] in
  (forall k : datetime,
      filter (has_key k) [dated; na1; na2] = filter (has_key k) [na1; dated; na2])
  /\ sorted_by_expiration [dated; na1; na2] = Ok [dated; na1; na2].
Proof.
  intros na1 dated na2.
  exact (sorted_stable_and_idempotent [na1; dated; na2] [dated; na1; na2] eq_refl).
Defined.

(** ** C9: the header row of a sheet *)

Lemma uniques_seen (seen l : list string) :
  (forall k : string, In k l -> In k seen) -> uniques seen l = [].
Proof.
  induction l as [|k l IH]; intros H; [reflexivity|].
  cbn [uniques].
  assert (E : existsb (String.eqb k) seen = true).
  { apply existsb_exists. exists k. split; [apply H; now left|].
    apply String.eqb_refl. }
  rewrite E. apply IH. intros k' Hk'. apply H. now right.
Qed.

Lemma uniques_prefix (cols : list string) :
  forall seen rest : list string,
    NoDup cols ->
    (forall k : string, In k cols -> ~ In k seen) ->
    uniques seen (cols ++ rest)%list
    = (cols ++ uniques (rev cols ++ seen) rest)%list.
Proof.
  induction cols as [|k cols IH]; intros seen rest Hnd Hfresh; [reflexivity|].
  cbn [app uniques].
  assert (E : existsb (String.eqb k) seen = false).
  { apply not_true_iff_false. intros H. apply existsb_exists in H.
    destruct H as [k' [Hin Heq]]. apply String.eqb_eq in Heq. subst k'.
    apply (Hfresh k); [now left | exact Hin]. }
  rewrite E. inversion Hnd as [|? ? Hk Hnd']; subst.
  rewrite IH; [|exact Hnd'|].
  - cbn [rev]. now rewrite <- app_assoc.
  - intros k' Hk' [<- | Hs]; [contradiction|].
    apply (Hfresh k'); [now right | exact Hs].
Qed.

(** The columns of a frame made of records that share their keys. *)
Lemma columns_uniform (cols : list string) (records : list dict) :
  NoDup cols -> records <> [] ->
  Forall (fun r => keys r = cols) records ->
  columns (DataFrame records) = cols.
Proof.
  intros Hnd Hne Hall. destruct records as [|r rs]; [congruence|].
  unfold DataFrame. cbn [columns flat_map].
  pose proof (Forall_inv Hall) as Hr. pose proof (Forall_inv_tail Hall) as Hrs.
  cbn beta in Hr. rewrite Hr.
  rewrite uniques_prefix; [|exact Hnd|intros k _ []].
  rewrite uniques_seen; [apply app_nil_r|].
  intros k Hk. rewrite app_nil_r. apply in_rev. rewrite rev_involutive.
  apply in_flat_map in Hk. destruct Hk as [r' [Hr' Hk]].
  rewrite Forall_forall in Hrs. now rewrite (Hrs r' Hr') in Hk.
Qed.

Lemma data_empty (records : list dict) :
  data (DataFrame records) = [] -> records = [].
Proof.
  unfold DataFrame. cbn [data]. destruct records; [reflexivity|discriminate].
Qed.

Lemma NoDup_coterm_columns : NoDup coterm_columns.
Proof.
  unfold coterm_columns.
  repeat (constructor; [cbn; intuition discriminate|]). constructor.
Qed.

Lemma NoDup_per_device_columns : NoDup per_device_columns.
Proof.
  unfold per_device_columns.
  repeat (constructor; [cbn; intuition discriminate|]). constructor.
Qed.

Lemma sorted_by_expiration_Forall (P : dict -> Prop) (records out : list dict) :
  sorted_by_expiration records = Ok out -> Forall P records -> Forall P out.
Proof.
  intros Hout Hall. pose proof (sorted_by_expiration_perm records out Hout) as Hp.
  rewrite Forall_forall in Hall |- *. intros r Hr. apply Hall.
  eapply Permutation_in; [symmetry; exact Hp | exact Hr].
Qed.

Lemma Forall2_right {A B : Type} (R : A -> B -> Prop) (P : B -> Prop)
  (l1 : list A) (l2 : list B) :
  (forall x y, R x y -> P y) -> Forall2 R l1 l2 -> Forall P l2.
Proof.
  intros H. induction 1; constructor; eauto.
Qed.

Lemma coterm_record_keys (org : Org) (record : dict) :
  coterm_record org record -> keys record = coterm_columns.
Proof. now intros [st [di [re ->]]]. Qed.

Lemma per_device_record_keys (api : value -> result Network) (org : Org)
  (record : dict) :
  per_device_record api org record -> keys record = per_device_columns.
Proof.
  now intros [license [[_ ->] | [_ [t [n [_ [_ ->]]]]]]].
Qed.

(** A sheet made from a bucket of records that share the keys [cols]. *)
Lemma sheet_of_sorted (cols : list string) (records out : list dict)
  (name : value) :
  NoDup cols ->
  Forall (fun r => keys r = cols) records ->
  sorted_by_expiration records = Ok out ->
  let sh := to_excel (DataFrame out) name in
  (body sh <> [] -> header sh = cols) /\ (body sh = [] -> header sh = [])
  /\ (out <> [] -> body sh <> []).
Proof.
  intros Hnd Hall Hout sh.
  pose proof (sorted_by_expiration_Forall _ records out Hout Hall) as Hall'.
  unfold sh, to_excel. cbn [body header]. repeat split.
  - intros Hb. apply columns_uniform; [exact Hnd| |exact Hall'].
    intros ->. now apply Hb.
  - intros Hb. apply data_empty in Hb. now subst out.
  - intros Hne Hb. apply data_empty in Hb. contradiction.
Qed.

Lemma per_device_sheets_inv (p : list (list dict)) :
  forall sheets : list sheet,
    Forall (Forall (fun r => keys r = per_device_columns)) p ->
    per_device_sheets p = Ok sheets ->
    Forall (fun sh => body sh <> [] /\ header sh = per_device_columns) sheets.
Proof.
  induction p as [|records p IH]; intros sheets Hall; cbn [per_device_sheets].
  - intros [= <-]. constructor.
  - destruct (sorted_by_expiration records) as [out|e] eqn:Hout;
      [|discriminate].
    cbn [rbind]. destruct out as [|first out]; [discriminate|].
    destruct (dict_get "Org. Name" first) as [v|]; [|discriminate].
    cbn [rbind]. destruct (per_device_sheets p) as [rest|e] eqn:Hrest;
      [|discriminate].
    cbn [rbind]. intros [= <-].
    pose proof (Forall_inv Hall) as Hr. pose proof (Forall_inv_tail Hall) as Hp.
    destruct (sheet_of_sorted per_device_columns records (first :: out) v
                NoDup_per_device_columns Hr Hout) as [H1 [_ H3]].
    constructor; [|now apply IH].
    assert (Hb : body (to_excel (DataFrame (first :: out)) v) <> [])
      by (apply H3; discriminate).
    split; [exact Hb | exact (H1 Hb)].
Qed.

Section Sheets.
Variable tznames : list string.
Variable clock : nat -> datetime.
Variable api_getOrganizations : result (list Org).
Variable api_getOrganizationLicensesOverview : value -> result Overview.
Variable api_getOrganizationLicenses : value -> result (list License).
Variable api_getNetwork : value -> result Network.

(** C9, as amended. When [main] returns, the first sheet is the co-term
    sheet and the others are the per-device sheets; a sheet with at least
    one data row has exactly the columns of its kind as its header, in
    their order; a sheet without data rows (an empty co-term bucket) has
    an empty header. *)
Theorem main_sheet_headers (w w' : world) (sheets : list sheet) :
  main tznames clock api_getOrganizations api_getOrganizationLicensesOverview
       api_getOrganizationLicenses api_getNetwork w = (Ok sheets, w') ->
  exists (first : sheet) (rest : list sheet),
    sheets = first :: rest
    /\ sheet_name first = VStr "Co-term Customers"
    /\ (body first <> [] -> header first = coterm_columns)
    /\ (body first = [] -> header first = [])
    /\ Forall (fun sh => body sh <> [] /\ header sh = per_device_columns) rest.
Proof.
  unfold main, Report.bind, getOrganizations, lift.
  destruct api_getOrganizations as [orgs|e]; [|discriminate].
  destruct (dispatch _ _ _ _ _ orgs ([], []) _) as [[[c p]|e] w1] eqn:Hrun;
    [|discriminate].
  destruct (dispatch_inv _ _ _ _ _ _ _ _ _ _ _ _ Hrun)
    as [c1 [p1 [Hc [Hp [H1 H2]]]]].
  cbn [app] in Hc, Hp. subst c1 p1.
  assert (Hck : Forall (fun r => keys r = coterm_columns) c).
  { eapply Forall2_right; [|exact H1]. intros org r. apply coterm_record_keys. }
  assert (Hpk : Forall (Forall (fun r => keys r = per_device_columns)) p).
  { eapply Forall2_right; [|exact H2]. intros org rs.
    apply Forall_impl. intros r. apply per_device_record_keys. }
  unfold write_report. cbn [fst snd].
  destruct (sorted_by_expiration c) as [out|e] eqn:Hout; [|discriminate].
  cbn [rbind]. destruct (per_device_sheets p) as [rest|e] eqn:Hrest;
    [|discriminate].
  cbn [rbind]. intros [= <- <-].
  destruct (sheet_of_sorted coterm_columns c out (VStr "Co-term Customers")
              NoDup_coterm_columns Hck Hout) as [Ha [Hb _]].
  eexists _, rest. split; [reflexivity|]. split; [reflexivity|].
  split; [exact Ha|]. split; [exact Hb|].
  exact (per_device_sheets_inv p rest Hpk Hrest).
Qed.

End Sheets.

Lemma main_sheet_headers_witness :
  let orgs := [mkOrg (VStr "A") (VStr "1") (VStr "co-term");
               mkOrg (VStr "B") (VStr "2") (VStr "enterprise");
               mkOrg (VStr "C") (VStr "3") (VStr "per-device")] in
  let licenses :=
    [mkLicense (VStr "ENT") (VStr "unused") VNone VNone VNone VNone;
     mkLicense (VStr "ENT") (VStr "active") (VStr "2025-10-06T00:00:00Z")
               (VInt 5) (VStr "Q2XX-1234") (VStr "N_1")] in
  exists (sheets : list sheet) (w' : world) (first : sheet) (rest : list sheet),
    main [] (fun _ => mkDatetime 2025 10 1 0 0 0 0) (Ok orgs)
         (fun _ => Ok (mkOverview (VStr "OK") (VStr "Oct 6, 2025 UTC")))
         (fun _ => Ok licenses) (fun _ => Ok (mkNetwork (VStr "HQ"))) w0
    = (Ok sheets, w')
    /\ sheets = first :: rest
    /\ sheet_name first = VStr "Co-term Customers"
    /\ (body first <> [] -> header first = coterm_columns)
    /\ (body first = [] -> header first = [])
    /\ Forall (fun sh => body sh <> [] /\ header sh = per_device_columns) rest.
Proof.
  intros orgs licenses. eexists _, _.
  pose proof (main_sheet_headers
                [] (fun _ => mkDatetime 2025 10 1 0 0 0 0) (Ok orgs)
                (fun _ => Ok (mkOverview (VStr "OK") (VStr "Oct 6, 2025 UTC")))
                (fun _ => Ok licenses) (fun _ => Ok (mkNetwork (VStr "HQ")))
                w0 _ _ eq_refl) as [first [rest H]].
  exists first, rest. split; [reflexivity | exact H].
Defined.

(** C9 as stated fails: without a co-term organization the co-term sheet
    is written with no data row and no header column. *)
Lemma main_empty_coterm_sheet_has_no_header :
  let orgs := [mkOrg (VStr "C") (VStr "3") (VStr "per-device")] in
  let licenses :=
    [mkLicense (VStr "ENT") (VStr "unused") VNone VNone VNone VNone] in
  exists (first : sheet) (rest : list sheet) (w' : world),
    main [] (fun _ => mkDatetime 2025 10 1 0 0 0 0) (Ok orgs)
         (fun _ => Raise APIError) (fun _ => Ok licenses)
         (fun _ => Raise APIError) w0
    = (Ok (first :: rest), w')
    /\ sheet_name first = VStr "Co-term Customers"
    /\ body first = []
    /\ header first = []
    /\ header first <> coterm_columns.
Proof.
  intros orgs licenses. eexists _, _, _.
  split; [vm_compute; reflexivity|].
  repeat split. cbn. discriminate.
Qed.

(** * Further properties of the script *)

(** ** The order of a sorted bucket *)

(** X1. What [sorted] returns is in ascending order of expiration: of two
    records, the later one never has the smaller key. *)
Theorem sorted_by_expiration_ascending
  (records out : list dict) (i j : nat) (a b : dict) (ka kb : datetime) :
  sorted_by_expiration records = Ok out ->
  (i < j)%nat ->
  nth_error out i = Some a -> nth_error out j = Some b ->
  expiration_key a = Ok ka -> expiration_key b = Ok kb ->
  datetime_ltb kb ka = false.
Proof.
  intros Hout Hij Hi Hj Ha Hb.
  destruct (sorted_by_expiration_inv records out Hout) as [d [_ [-> [Hk Hs]]]].
  destruct (nth_error_keyed _ i a Hk Hi) as [ka' [Hia Hka]].
  destruct (nth_error_keyed _ j b Hk Hj) as [kb' [Hjb Hkb]].
  assert (ka' = ka) by congruence. assert (kb' = kb) by congruence. subst.
  exact (StronglySorted_nth _ _ Hs i j _ _ Hij Hia Hjb).
Qed.

Lemma sorted_by_expiration_ascending_witness :
  datetime_ltb (mkDatetime 2026 1 1 0 0 0 0) (mkDatetime 2025 3 9 0 0 0 0)
  = false.
Proof.
  exact (sorted_by_expiration_ascending
           [[("License Expiration", VStr "Jan 1, 2026")];
            [("License Expiration", VStr "N/A")];
            [("License Expiration", VStr "Mar 9, 2025")]]
           [[("License Expiration", VStr "Mar 9, 2025")];
            [("License Expiration", VStr "Jan 1, 2026")];
            [("License Expiration", VStr "N/A")]]
           0 1
           [("License Expiration", VStr "Mar 9, 2025")]
           [("License Expiration", VStr "Jan 1, 2026")]
           (mkDatetime 2025 3 9 0 0 0 0) (mkDatetime 2026 1 1 0 0 0 0)
           eq_refl (le_n 1) eq_refl eq_refl eq_refl eq_refl).
Defined.

(** ** The calls of the per-device normalizer *)

Section PerDeviceTrace.
Variable api_getOrganizationLicenses : value -> result (list License).
Variable api_getNetwork : value -> result Network.
Variables name id : value.

Lemma loop_world (licenses : list License) :
  forall (acc : list dict) (w : world) (records : list dict) (w' : world),
    per_device_loop api_getNetwork name id licenses acc w = (Ok records, w') ->
    calls w' = (calls w ++ network_calls licenses)%list /\ ticks w' = ticks w.
Proof.
  induction licenses as [|license rest IH]; intros acc w records w' Hrun.
  - cbn in Hrun. injection Hrun as <- <-. cbn. now rewrite app_nil_r.
  - cbn [per_device_loop] in Hrun. unfold Report.bind in Hrun.
    destruct (per_device_entry api_getNetwork name id license w)
      as [[record|e] w1] eqn:E; [|discriminate].
    destruct (IH _ _ _ _ Hrun) as [Hc Ht]. unfold network_calls. cbn [filter].
    destruct (entry_inv _ _ _ _ _ _ _ E)
      as [[Hf [_ ->]] | [Hf [t [n [_ [_ [_ ->]]]]]]]; rewrite Hf.
    + now split.
    + cbn [map log calls ticks] in *. split; [|exact Ht].
      rewrite Hc. unfold network_calls. now rewrite <- app_assoc.
Qed.

Lemma per_device_license_calls_aux
  (licenses : list License) (records : list dict) (w w' : world) :
  api_getOrganizationLicenses id = Ok licenses ->
  per_device_license api_getOrganizationLicenses api_getNetwork name id w
  = (Ok records, w') ->
  calls w'
  = (calls w ++ GetOrganizationLicenses id :: network_calls licenses)%list
  /\ ticks w' = ticks w.
Proof.
  intros Hapi. unfold per_device_license, Report.bind, getOrganizationLicenses.
  rewrite Hapi. intros Hrun. destruct (loop_world _ _ _ _ _ Hrun) as [Hc Ht].
  cbn [log calls ticks] in *. split; [|exact Ht].
  rewrite Hc. now rewrite <- app_assoc.
Qed.

(** X2. When [per_device_license] returns, it has asked the dashboard for
    the licenses of the organization once and then for the network of
    each license that has an expiration date, once each and in the order
    of the licenses; it has made no other call and has not read the
    clock. *)
Theorem per_device_license_calls
  (licenses : list License) (records : list dict) (w w' : world) :
  api_getOrganizationLicenses id = Ok licenses ->
  per_device_license api_getOrganizationLicenses api_getNetwork name id w
  = (Ok records, w') ->
  calls w'
  = (calls w ++ GetOrganizationLicenses id :: network_calls licenses)%list
  /\ ticks w' = ticks w.
Proof. apply per_device_license_calls_aux. Qed.

End PerDeviceTrace.

Lemma per_device_license_calls_witness :
  let dated :=
    mkLicense (VStr "ENT") (VStr "active") (VStr "2025-10-06T00:00:00Z")
              (VInt 5) (VStr "Q2XX-1234") (VStr "N_1") in
  let undated := mkLicense (VStr "ENT") (VStr "unused") VNone VNone VNone VNone in
  let w' := snd (per_device_license (fun _ => Ok [undated; dated; undated])
                   (fun _ => Ok (mkNetwork (VStr "HQ")))
                   (VStr "Acme") (VStr "7") w0) in
  calls w'
  = ([] ++ GetOrganizationLicenses (VStr "7")
        :: network_calls [undated; dated; undated])%list
  /\ ticks w' = 0%nat.
Proof.
  intros dated undated w'.
  exact (per_device_license_calls
           (fun _ => Ok [undated; dated; undated])
           (fun _ => Ok (mkNetwork (VStr "HQ"))) (VStr "Acme") (VStr "7")
           [undated; dated; undated] _ w0 w' eq_refl eq_refl).
Defined.

(** ** The calculator and the calendar *)

Lemma date_of_midnight (ymd : Z * Z * Z) (t : datetime) :
  date_of ymd = Some t ->
  hour t = 0 /\ minute t = 0 /\ second t = 0 /\ microsecond t = 0
  /\ check_date_fields (year t) (month t) (day t) = true.
Proof.
  destruct ymd as [[y m] d]. unfold date_of, datetime_new.
  destruct (check_date_fields y m d) eqn:C; [|discriminate].
  cbn [andb check_time_fields]. intros [= <-]. cbn. now rewrite C.
Qed.

Lemma strptime_bdYZ_midnight (tznames : list string) (s : string) (t : datetime) :
  strptime_bdYZ tznames s = Some t ->
  hour t = 0 /\ minute t = 0 /\ second t = 0 /\ microsecond t = 0
  /\ check_date_fields (year t) (month t) (day t) = true.
Proof.
  unfold strptime_bdYZ. destruct (full_match _ s) as [ymd|]; [|discriminate].
  apply date_of_midnight.
Qed.

Lemma time_of_day_bounds (t : datetime) :
  valid_time t -> 0 <= time_of_day t < usec_per_day.
Proof.
  unfold valid_time, check_time_fields, time_of_day, usec_per_day.
  rewrite !andb_true_iff, !Z.leb_le. lia.
Qed.

Lemma floor_sub (k tod : Z) :
  0 <= tod < usec_per_day ->
  (k * usec_per_day - tod) / usec_per_day = if tod =? 0 then k else k - 1.
Proof.
  intros H. destruct (Z.eqb_spec tod 0) as [->|Hne]; symmetry.
  - apply Z.div_unique with 0; lia.
  - apply Z.div_unique with (usec_per_day - tod); lia.
Qed.

Section Calendar.
Variable tznames : list string.
Variable clock : nat -> datetime.

(** X3. [get_days_remaining] counts completed days. With [k] the number
    of calendar days from the day of the clock to the expiration day, it
    returns [k] when the clock reads midnight exactly and [k - 1] at any
    later time of that day, and ["N/A"] when that count is not positive. *)
Theorem get_days_remaining_calendar
  (s : string) (target : datetime) (w : world) :
  strptime_bdYZ tznames s = Some target ->
  valid_time (clock (ticks w)) ->
  let now := clock (ticks w) in
  let k := toordinal target - toordinal now in
  let d := if time_of_day now =? 0 then k else k - 1 in
  get_days_remaining tznames clock (VStr s) w
  = (Ok (if 0 <? d then VStr (str d) else VStr "N/A"), tick w).
Proof.
  intros Hparse Hvalid now k d.
  rewrite (get_days_remaining_run tznames clock s target w Hparse).
  cbv zeta. fold now.
  destruct (strptime_bdYZ_midnight tznames s target Hparse)
    as [Hh [Hm [Hs [Hu _]]]].
  assert (E : instant target - instant now
              = k * usec_per_day - time_of_day now).
  { unfold instant, time_of_day, usec_per_day, k.
    rewrite Hh, Hm, Hs, Hu. ring. }
  rewrite E, (floor_sub k _ (time_of_day_bounds now Hvalid)). reflexivity.
Qed.

End Calendar.

Lemma get_days_remaining_calendar_witness :
  get_days_remaining [] (fun _ => mkDatetime 2025 10 1 9 30 0 0)
                     (VStr "Oct 6, 2025 UTC") w0
  = (Ok (VStr "4"), tick w0).
Proof.
  exact (get_days_remaining_calendar
           [] (fun _ => mkDatetime 2025 10 1 9 30 0 0)
           "Oct 6, 2025 UTC" (mkDatetime 2025 10 6 0 0 0 0) w0
           eq_refl eq_refl).
Defined.

(** ** When the co-term normalizer returns *)

Section CoTermErrors.
Variable tznames : list string.
Variable clock : nat -> datetime.
Variable api_getOrganizationLicensesOverview : value -> result Overview.

Lemma co_term_license_full_inv (name id : value) (w w' : world) (record : dict) :
  co_term_license tznames clock api_getOrganizationLicensesOverview name id w
  = (Ok record, w') ->
  overview_ok tznames api_getOrganizationLicensesOverview id
  /\ w' = tick (log (GetOrganizationLicensesOverview id) w).
Proof.
  unfold co_term_license, Report.bind, getOrganizationLicensesOverview.
  destruct (api_getOrganizationLicensesOverview id) as [[status ed]|e] eqn:Hapi;
    [|discriminate].
  cbn [ov_expirationDate ov_status]. destruct ed as [|s|n]; try discriminate.
  cbn [Report.ret]. unfold get_days_remaining, Report.bind, utcnow, lift.
  cbn [strptime_value].
  destruct (strptime_bdYZ tznames s) as [target|] eqn:Hparse; [|discriminate].
  intros [= <- <-]. split; [|reflexivity]. now exists status, s, target.
Qed.

(** X4. [co_term_license] returns a record exactly when the overview of
    the organization is fetched and its expiration is a text that parses
    under ['%b %d, %Y %Z']. A failure of the fetch is passed on as it is,
    without a reading of the clock; a text that does not parse raises
    [ValueError] after one reading of the clock; an expiration that is
    not a text raises [AttributeError]. *)
Theorem co_term_license_returns_iff (name id : value) (w : world) :
  ((exists (record : dict) (w' : world),
       co_term_license tznames clock api_getOrganizationLicensesOverview
                       name id w = (Ok record, w'))
   <-> overview_ok tznames api_getOrganizationLicensesOverview id)
  /\ (forall e : exn,
        api_getOrganizationLicensesOverview id = Raise e ->
        co_term_license tznames clock api_getOrganizationLicensesOverview
                        name id w
        = (Raise e, log (GetOrganizationLicensesOverview id) w))
  /\ (forall (status : value) (s : string),
        api_getOrganizationLicensesOverview id
        = Ok (mkOverview status (VStr s)) ->
        strptime_bdYZ tznames s = None ->
        co_term_license tznames clock api_getOrganizationLicensesOverview
                        name id w
        = (Raise ValueError, tick (log (GetOrganizationLicensesOverview id) w)))
  /\ (forall (status expiration : value),
        api_getOrganizationLicensesOverview id
        = Ok (mkOverview status expiration) ->
        (forall s : string, expiration <> VStr s) ->
        co_term_license tznames clock api_getOrganizationLicensesOverview
                        name id w
        = (Raise AttributeError, log (GetOrganizationLicensesOverview id) w)).
Proof.
  repeat split.
  - intros [record [w' Hrun]].
    exact (proj1 (co_term_license_full_inv name id w w' record Hrun)).
  - intros [status [s [target [Hapi Hparse]]]].
    destruct (co_term_license_run tznames clock
                api_getOrganizationLicensesOverview name id status s target w
                Hapi Hparse) as [remaining [_ Hrun]].
    eauto.
  - intros e Hapi.
    unfold co_term_license, Report.bind, getOrganizationLicensesOverview.
    now rewrite Hapi.
  - intros status s Hapi Hparse.
    unfold co_term_license, Report.bind, getOrganizationLicensesOverview.
    rewrite Hapi. cbn [ov_expirationDate ov_status Report.ret].
    unfold get_days_remaining, Report.bind, utcnow, lift. cbn [strptime_value].
    now rewrite Hparse.
  - intros status expiration Hapi Hns.
    unfold co_term_license, Report.bind, getOrganizationLicensesOverview.
    rewrite Hapi. cbn [ov_expirationDate ov_status].
    destruct expiration as [|s|n]; try reflexivity. now destruct (Hns s).
Qed.

End CoTermErrors.

(** ** A run of the loop over the organizations *)

Section DispatchRun.
Variable tznames : list string.
Variable clock : nat -> datetime.
Variable api_getOrganizationLicensesOverview : value -> result Overview.
Variable api_getOrganizationLicenses : value -> result (list License).
Variable api_getNetwork : value -> result Network.

Lemma per_device_license_full_inv (name id : value) (w w' : world)
  (records : list dict) :
  per_device_license api_getOrganizationLicenses api_getNetwork name id w
  = (Ok records, w') ->
  exists licenses : list License,
    api_getOrganizationLicenses id = Ok licenses
    /\ Forall2 (made_for api_getNetwork name id) licenses records
    /\ calls w'
       = (calls w ++ GetOrganizationLicenses id :: network_calls licenses)%list
    /\ ticks w' = ticks w.
Proof.
  intros Hrun. pose proof Hrun as Hrun'.
  unfold per_device_license, Report.bind, getOrganizationLicenses in Hrun.
  destruct (api_getOrganizationLicenses id) as [licenses|e] eqn:Hapi;
    [|discriminate].
  exists licenses. split; [reflexivity|].
  destruct (loop_inv _ _ _ _ _ _ _ _ Hrun) as [new [-> Hnew]].
  split; [exact Hnew|].
  exact (per_device_license_calls_aux api_getOrganizationLicenses api_getNetwork
           name id licenses ([] ++ new)%list w w' Hapi Hrun').
Qed.

Lemma dispatch_full_inv (orgs : list Org) :
  forall (c0 : list dict) (p0 : list (list dict)) (w : world)
         (c : list dict) (p : list (list dict)) (w' : world),
    dispatch tznames clock api_getOrganizationLicensesOverview
             api_getOrganizationLicenses api_getNetwork orgs (c0, p0) w
    = (Ok (c, p), w') ->
    exists (c1 : list dict) (p1 : list (list dict)),
      c = (c0 ++ c1)%list /\ p = (p0 ++ p1)%list
      /\ Forall2 coterm_record (filter is_coterm orgs) c1
      /\ Forall (fun org =>
                   overview_ok tznames api_getOrganizationLicensesOverview
                               (org_id org))
                (filter is_coterm orgs)
      /\ Forall2 (licenses_of api_getOrganizationLicenses api_getNetwork)
                 (filter is_per_device orgs) p1
      /\ calls w'
         = (calls w ++ flat_map (org_calls api_getOrganizationLicenses) orgs)%list
      /\ ticks w' = (ticks w + List.length (filter is_coterm orgs))%nat.
Proof.
  induction orgs as [|org rest IH]; intros c0 p0 w c p w' Hrun.
  - cbn in Hrun. injection Hrun as <- <- <-. exists [], [].
    cbn. rewrite !app_nil_r, Nat.add_0_r. repeat split; constructor.
  - cbn [dispatch] in Hrun. unfold Report.bind in Hrun.
    cbn [filter flat_map]. unfold org_calls at 1.
    unfold dispatch_org in Hrun. fold (is_coterm org) in Hrun.
    fold (is_per_device org) in Hrun.
    destruct (is_coterm org) eqn:Hc.
    + rewrite (coterm_not_per_device org Hc). unfold Report.bind in Hrun.
      destruct (co_term_license _ _ _ _ _ w) as [[record|e] w1] eqn:E;
        [|discriminate].
      cbn [Report.ret] in Hrun.
      destruct (IH _ _ _ _ _ _ Hrun)
        as [c1 [p1 [-> [-> [H1 [H2 [H3 [H4 H5]]]]]]]].
      destruct (co_term_license_full_inv _ _ _ _ _ _ _ _ E) as [Hok ->].
      exists (record :: c1), p1. rewrite <- app_assoc.
      repeat split; try assumption.
      * constructor; [|exact H1]. exact (co_term_license_inv _ _ _ _ _ _ _ _ E).
      * now constructor.
      * rewrite H4. cbn [tick log calls]. now rewrite <- app_assoc.
      * rewrite H5. cbn [tick log ticks List.length]. lia.
    + destruct (is_per_device org) eqn:Hp.
      * unfold Report.bind in Hrun.
        destruct (per_device_license _ _ _ _ w) as [[records|e] w1] eqn:E;
          [|discriminate].
        cbn [Report.ret] in Hrun.
        destruct (IH _ _ _ _ _ _ Hrun)
          as [c1 [p1 [-> [-> [H1 [H2 [H3 [H4 H5]]]]]]]].
        destruct (per_device_license_full_inv _ _ _ _ _ E)
          as [licenses [Hapi [Hmade [Hcalls Hticks]]]].
        exists c1, (records :: p1). rewrite <- app_assoc.
        repeat split; try assumption.
        -- constructor; [|exact H3]. now exists licenses.
        -- rewrite H4, Hcalls, Hapi. now rewrite <- !app_assoc.
        -- rewrite H5, Hticks. reflexivity.
      * cbn [Report.ret] in Hrun. cbn [app]. exact (IH _ _ _ _ _ _ Hrun).
Qed.

End DispatchRun.

(** ** A run of [main] *)

Lemma Forall2_compose {A B C : Type} (R : A -> B -> Prop) (S : B -> C -> Prop)
  (l1 : list A) (l2 : list B) :
  Forall2 R l1 l2 ->
  forall l3 : list C,
    Forall2 S l2 l3 ->
    Forall2 (fun a c => exists b, R a b /\ S b c) l1 l3.
Proof.
  induction 1 as [|a b l1 l2 Hab _ IH]; intros l3 H3;
    inversion H3; subst; constructor; eauto.
Qed.

Lemma Forall2_left {A B : Type} (R : A -> B -> Prop) (P : A -> Prop)
  (l1 : list A) (l2 : list B) :
  (forall x y, R x y -> P x) -> Forall2 R l1 l2 -> Forall P l1.
Proof.
  intros H. induction 1; constructor; eauto.
Qed.

Lemma dict_get_own_keys (r : dict) :
  NoDup (keys r) -> map (fun c => dict_get c r) (keys r) = cells r.
Proof.
  induction r as [|[k v] r IH]; intros Hnd; [reflexivity|].
  cbn [keys map fst] in Hnd. inversion Hnd as [|? ? Hk Hnd']; subst.
  change (cells ((k, v) :: r)) with (Some v :: cells r).
  rewrite <- (IH Hnd'). change (keys ((k, v) :: r)) with (k :: keys r).
  cbn [map dict_get]. rewrite String.eqb_refl. f_equal.
  apply map_ext_in. intros c Hc.
  destruct (String.eqb_spec c k) as [->|_]; [contradiction|reflexivity].
Qed.

(** The rows of a frame made of records that share their keys. *)
Lemma data_uniform (cols : list string) (records : list dict) :
  NoDup cols -> Forall (fun r => keys r = cols) records ->
  data (DataFrame records) = map cells records.
Proof.
  intros Hnd Hall. destruct records as [|r0 rs] eqn:E; [reflexivity|].
  rewrite <- E in *. unfold DataFrame at 1. cbn [data].
  assert (Hc : uniques [] (flat_map keys records) = cols).
  { apply (columns_uniform cols records Hnd); [now rewrite E|exact Hall]. }
  rewrite Hc. apply map_ext_in. intros r Hr. rewrite Forall_forall in Hall.
  pose proof (Hall r Hr) as Hk. cbn beta in Hk. rewrite <- Hk.
  apply dict_get_own_keys. now rewrite Hk.
Qed.

(** What [per_device_sheets] returns, sheet by sheet. *)
Lemma per_device_sheets_shape (p : list (list dict)) :
  forall sheets : list sheet,
    per_device_sheets p = Ok sheets ->
    Forall2 (fun records sh =>
               exists (first : dict) (out : list dict),
                 sorted_by_expiration records = Ok (first :: out)
                 /\ dict_get "Org. Name" first = Some (sheet_name sh)
                 /\ header sh = columns (DataFrame (first :: out))
                 /\ body sh = data (DataFrame (first :: out)))
            p sheets.
Proof.
  induction p as [|records p IH]; intros sheets; cbn [per_device_sheets].
  - intros [= <-]. constructor.
  - destruct (sorted_by_expiration records) as [out|e] eqn:Hout;
      [|discriminate].
    cbn [rbind]. destruct out as [|first out]; [discriminate|].
    destruct (dict_get "Org. Name" first) as [v|] eqn:Hv; [|discriminate].
    cbn [rbind]. destruct (per_device_sheets p) as [rest|e]; [|discriminate].
    cbn [rbind]. intros [= <-]. constructor; [|now apply IH].
    now exists first, out.
Qed.

Lemma made_for_keys (api : value -> result Network) (name id : value)
  (license : License) (record : dict) :
  made_for api name id license record ->
  keys record = per_device_columns
  /\ dict_get "Org. Name" record = Some name.
Proof.
  intros [[_ ->] | [_ [t [n [_ [_ ->]]]]]]; split; reflexivity.
Qed.

Section MainRun.
Variable tznames : list string.
Variable clock : nat -> datetime.
Variable api_getOrganizations : result (list Org).
Variable api_getOrganizationLicensesOverview : value -> result Overview.
Variable api_getOrganizationLicenses : value -> result (list License).
Variable api_getNetwork : value -> result Network.

Lemma main_inv (orgs : list Org) (w w' : world) (sheets : list sheet) :
  api_getOrganizations = Ok orgs ->
  main tznames clock api_getOrganizations api_getOrganizationLicensesOverview
       api_getOrganizationLicenses api_getNetwork w = (Ok sheets, w') ->
  exists (c : list dict) (p : list (list dict)),
    dispatch tznames clock api_getOrganizationLicensesOverview
             api_getOrganizationLicenses api_getNetwork orgs ([], [])
             (log GetOrganizations w) = (Ok (c, p), w')
    /\ write_report (c, p) = Ok sheets.
Proof.
  intros Hapi. unfold main, Report.bind, getOrganizations, lift. rewrite Hapi.
  destruct (dispatch _ _ _ _ _ orgs ([], []) _) as [[[c p]|e] w1];
    [|discriminate].
  destruct (write_report (c, p)) as [sh|e] eqn:Hw; [|discriminate].
  intros [= <- <-]. now exists c, p.
Qed.

(** Everything that a returning run of [main] determines. *)
Lemma main_full_inv (orgs : list Org) (w w' : world) (sheets : list sheet) :
  api_getOrganizations = Ok orgs ->
  main tznames clock api_getOrganizations api_getOrganizationLicensesOverview
       api_getOrganizationLicenses api_getNetwork w = (Ok sheets, w') ->
  exists (c out : list dict) (p : list (list dict)) (rest : list sheet),
    Forall2 coterm_record (filter is_coterm orgs) c
    /\ Forall (fun org =>
                 overview_ok tznames api_getOrganizationLicensesOverview
                             (org_id org))
              (filter is_coterm orgs)
    /\ Forall2 (licenses_of api_getOrganizationLicenses api_getNetwork)
               (filter is_per_device orgs) p
    /\ calls w'
       = (calls w ++ GetOrganizations
                  :: flat_map (org_calls api_getOrganizationLicenses) orgs)%list
    /\ ticks w' = (ticks w + List.length (filter is_coterm orgs))%nat
    /\ sorted_by_expiration c = Ok out
    /\ per_device_sheets p = Ok rest
    /\ sheets = to_excel (DataFrame out) (VStr "Co-term Customers") :: rest.
Proof.
  intros Hapi Hrun.
  destruct (main_inv orgs w w' sheets Hapi Hrun) as [c [p [Hd Hw]]].
  destruct (dispatch_full_inv _ _ _ _ _ _ _ _ _ _ _ _ Hd)
    as [c1 [p1 [Hc [Hp [H1 [H2 [H3 [H4 H5]]]]]]]].
  cbn [app] in Hc, Hp. subst c1 p1.
  unfold write_report in Hw. cbn [fst snd] in Hw.
  destruct (sorted_by_expiration c) as [out|e] eqn:Hout; [|discriminate].
  cbn [rbind] in Hw. destruct (per_device_sheets p) as [rest|e] eqn:Hrest;
    [|discriminate].
  cbn [rbind] in Hw. injection Hw as <-.
  exists c, out, p, rest. repeat split; try assumption.
  rewrite H4. cbn [log calls]. now rewrite <- app_assoc.
Qed.

End MainRun.

Lemma Forall2_In_r {A B : Type} (R : A -> B -> Prop) (l1 : list A) (l2 : list B) :
  Forall2 R l1 l2 -> forall y : B, In y l2 -> exists x : A, In x l1 /\ R x y.
Proof.
  induction 1 as [|a b l1 l2 Hab _ IH]; intros y [].
  - subst. exists a. split; [now left | exact Hab].
  - destruct (IH y H) as [x [Hx Hr]]. exists x. split; [now right | exact Hr].
Qed.

Lemma made_for_entry_ok (api : value -> result Network) (name id : value)
  (license : License) (record : dict) :
  made_for api name id license record -> entry_ok api license.
Proof.
  intros [[Hf _] | [_ [t [n [Ht [Hn _]]]]]] Htruthy; [congruence|].
  split; [now exists t | now exists n].
Qed.

Lemma cells_complete (r : dict) :
  List.length (cells r) = List.length (keys r) /\ ~ In None (cells r).
Proof.
  unfold cells, keys. rewrite !length_map. split; [reflexivity|].
  intros H. apply in_map_iff in H. destruct H as [kv [H _]]. discriminate.
Qed.


Section SheetFacts.
Variable api_getOrganizationLicenses : value -> result (list License).
Variable api_getNetwork : value -> result Network.

(** The sheet of a per-device organization, against the licenses that
    the dashboard lists for it. *)
Lemma per_device_sheet_facts (porgs : list Org) (p : list (list dict))
  (rest : list sheet) :
  Forall2 (licenses_of api_getOrganizationLicenses api_getNetwork) porgs p ->
  per_device_sheets p = Ok rest ->
  Forall2 (fun org sh =>
             exists (licenses : list License) (out : list dict),
               api_getOrganizationLicenses (org_id org) = Ok licenses
               /\ licenses <> []
               /\ Forall (entry_ok api_getNetwork) licenses
               /\ sheet_name sh = org_name org
               /\ List.length out = List.length licenses
               /\ header sh = per_device_columns
               /\ body sh = map cells out
               /\ Forall (fun r => keys r = per_device_columns) out)
          porgs rest.
Proof.
  intros Hlic Hsheets.
  pose proof (Forall2_compose _ _ _ _ Hlic _
                (per_device_sheets_shape p rest Hsheets)) as H.
  eapply Forall2_impl; [|exact H]. clear H.
  intros org sh [records [[licenses [Hapi Hmade]]
                            [first [out [Hout [Hname [Hhead Hbody]]]]]]].
  pose proof (sorted_by_expiration_perm _ _ Hout) as Hperm.
  assert (Hkeys : Forall (fun r => keys r = per_device_columns) records).
  { eapply Forall2_right; [|exact Hmade]. intros l r Hm.
    exact (proj1 (made_for_keys _ _ _ _ _ Hm)). }
  pose proof (sorted_by_expiration_Forall _ _ _ Hout Hkeys) as Hkeys'.
  exists licenses, (first :: out). repeat split.
  - exact Hapi.
  - intros ->. inversion Hmade; subst.
    apply Permutation_nil in Hperm. discriminate.
  - eapply Forall2_left; [|exact Hmade]. intros l r. apply made_for_entry_ok.
  - assert (Hin : In first records).
    { eapply Permutation_in; [symmetry; exact Hperm | now left]. }
    destruct (Forall2_In_r _ _ _ Hmade first Hin) as [l [_ Hm]].
    pose proof (proj2 (made_for_keys _ _ _ _ _ Hm)) as Hn. congruence.
  - rewrite <- (Permutation_length Hperm). symmetry.
    exact (Forall2_length Hmade).
  - rewrite Hhead. apply columns_uniform;
      [exact NoDup_per_device_columns | discriminate | exact Hkeys'].
  - rewrite Hbody.
    exact (data_uniform _ _ NoDup_per_device_columns Hkeys').
  - exact Hkeys'.
Qed.

End SheetFacts.

Section MainProps.
Variable tznames : list string.
Variable clock : nat -> datetime.
Variable api_getOrganizations : result (list Org).
Variable api_getOrganizationLicensesOverview : value -> result Overview.
Variable api_getOrganizationLicenses : value -> result (list License).
Variable api_getNetwork : value -> result Network.

(** X5. A run of [main] that returns has made these calls to the
    dashboard and no other, in this order: the list of organizations,
    then for each organization in turn the overview (co-term), or the
    licenses followed by one network lookup for each license with an
    expiration date (per-device), or nothing (any other model). The clock
    has been read once for each co-term organization. *)
Theorem main_calls (orgs : list Org) (w w' : world) (sheets : list sheet) :
  api_getOrganizations = Ok orgs ->
  main tznames clock api_getOrganizations api_getOrganizationLicensesOverview
       api_getOrganizationLicenses api_getNetwork w = (Ok sheets, w') ->
  calls w'
  = (calls w ++ GetOrganizations
             :: flat_map (org_calls api_getOrganizationLicenses) orgs)%list
  /\ ticks w' = (ticks w + List.length (filter is_coterm orgs))%nat.
Proof.
  intros Hapi Hrun.
  destruct (main_full_inv _ _ _ _ _ _ orgs w w' sheets Hapi Hrun)
    as [c [out [p [rest [_ [_ [_ [Hc [Ht _]]]]]]]]].
  now split.
Qed.



(** X8. In a run of [main] that returns, every data row of every sheet
    has one cell for each column of the header and no cell is missing. *)
Theorem main_rows_complete (orgs : list Org) (w w' : world) (sheets : list sheet) :
  api_getOrganizations = Ok orgs ->
  main tznames clock api_getOrganizations api_getOrganizationLicensesOverview
       api_getOrganizationLicenses api_getNetwork w = (Ok sheets, w') ->
  Forall (fun sh =>
            Forall (fun row =>
                      List.length row = List.length (header sh)
                      /\ ~ In None row) (body sh)) sheets.
Proof.
  intros Hapi Hrun.
  destruct (main_full_inv _ _ _ _ _ _ orgs w w' sheets Hapi Hrun)
    as [c [out [p [rest [Hc [_ [Hlic [_ [_ [Hout [Hrest ->]]]]]]]]]]].
  constructor.
  - assert (Hk : Forall (fun r => keys r = coterm_columns) out).
    { apply (sorted_by_expiration_Forall _ c out Hout).
      eapply Forall2_right; [|exact Hc]. intros org r.
      apply coterm_record_keys. }
    cbn [to_excel body header].
    rewrite (data_uniform _ _ NoDup_coterm_columns Hk).
    rewrite Forall_forall. intros row Hrow. apply in_map_iff in Hrow.
    destruct Hrow as [r [<- Hr]].
    assert (Hne : out <> []) by (intros ->; destruct Hr).
    rewrite (columns_uniform _ _ NoDup_coterm_columns Hne Hk).
    rewrite Forall_forall in Hk. rewrite <- (Hk r Hr). apply cells_complete.
  - eapply Forall2_right;
      [|exact (per_device_sheet_facts _ _ _ _ _ Hlic Hrest)].
    intros org sh [ls [o [_ [_ [_ [_ [_ [Hh [Hb Hk]]]]]]]]].
    rewrite Hb, Hh. rewrite Forall_forall. intros row Hrow.
    apply in_map_iff in Hrow. destruct Hrow as [r [<- Hr]].
    rewrite Forall_forall in Hk. rewrite <- (Hk r Hr). apply cells_complete.
Qed.

(** X9. [main] returns only if, for every organization of the list, the
    fetch succeeded and the dates parsed: the overview of a co-term
    organization is usable, and a per-device organization has at least
    one license, each with a date that parses and a network that is found
    when an expiration date is present. An organization with an empty
    list of licenses makes the run fail. *)
Theorem main_returns_only_if (orgs : list Org) (w w' : world)
  (sheets : list sheet) :
  api_getOrganizations = Ok orgs ->
  main tznames clock api_getOrganizations api_getOrganizationLicensesOverview
       api_getOrganizationLicenses api_getNetwork w = (Ok sheets, w') ->
  forall org : Org,
    In org orgs ->
    (is_coterm org = true ->
     overview_ok tznames api_getOrganizationLicensesOverview (org_id org))
    /\ (is_per_device org = true ->
        exists (l : License) (ls : list License),
          api_getOrganizationLicenses (org_id org) = Ok (l :: ls)
          /\ Forall (entry_ok api_getNetwork) (l :: ls)).
Proof.
  intros Hapi Hrun org Hin.
  destruct (main_full_inv _ _ _ _ _ _ orgs w w' sheets Hapi Hrun)
    as [c [out [p [rest [_ [Hov [Hlic [_ [_ [_ [Hrest _]]]]]]]]]]].
  split; intros Hm.
  - rewrite Forall_forall in Hov. apply Hov. now apply filter_In.
  - assert (H : Forall (fun org =>
                          exists (l : License) (ls : list License),
                            api_getOrganizationLicenses (org_id org)
                            = Ok (l :: ls)
                            /\ Forall (entry_ok api_getNetwork) (l :: ls))
                       (filter is_per_device orgs)).
    { eapply Forall2_left;
        [|exact (per_device_sheet_facts _ _ _ _ _ Hlic Hrest)].
      intros o sh [ls [out' [Ha [Hne [Hok _]]]]].
      destruct ls as [|l ls]; [congruence|]. now exists l, ls. }
    rewrite Forall_forall in H. apply H. now apply filter_In.
Qed.

End MainProps.

Lemma main_calls_witness :
  calls (snd Demo.run)
  = ([] ++ GetOrganizations :: flat_map (org_calls Demo.licenses_for) Demo.orgs)%list
  /\ ticks (snd Demo.run) = (0 + List.length (filter is_coterm Demo.orgs))%nat.
Proof.
  exact (main_calls [] Demo.clock (Ok Demo.orgs) Demo.overview
           Demo.licenses_for Demo.network Demo.orgs w0 (snd Demo.run)
           Demo.sheets eq_refl eq_refl).
Defined.



Lemma main_rows_complete_witness :
  Forall (fun sh =>
            Forall (fun row =>
                      List.length row = List.length (header sh)
                      /\ ~ In None row) (body sh)) Demo.sheets.
Proof.
  exact (main_rows_complete [] Demo.clock (Ok Demo.orgs) Demo.overview
           Demo.licenses_for Demo.network Demo.orgs w0 (snd Demo.run)
           Demo.sheets eq_refl eq_refl).
Defined.

Lemma main_returns_only_if_witness :
  let org := mkOrg (VStr "C") (VStr "3") (VStr "per-device") in
  (is_coterm org = true -> overview_ok [] Demo.overview (org_id org))
  /\ (is_per_device org = true ->
      exists (l : License) (ls : list License),
        Demo.licenses_for (org_id org) = Ok (l :: ls)
        /\ Forall (entry_ok Demo.network) (l :: ls)).
Proof.
  exact (main_returns_only_if [] Demo.clock (Ok Demo.orgs) Demo.overview
           Demo.licenses_for Demo.network Demo.orgs w0 (snd Demo.run)
           Demo.sheets eq_refl eq_refl
           (mkOrg (VStr "C") (VStr "3") (VStr "per-device"))
           (or_intror (or_intror (or_introl eq_refl)))).
Defined.

(** ** Printing and reading a date *)

Lemma flat_map_flat_map {A B C : Type} (f : A -> list B) (g : B -> list C)
  (l : list A) :
  flat_map g (flat_map f l) = flat_map (fun x => flat_map g (f x)) l.
Proof.
  induction l as [|a l IH]; [reflexivity|].
  cbn [flat_map]. now rewrite flat_map_app, IH.
Qed.

Lemma hd_bind {A B : Type} (p : matcher A) (f : A -> matcher B) (s : string)
  (a : A) (r : string) (more : list (A * string)) (x : B * string) :
  p s = (a, r) :: more ->
  (exists tl : list (B * string), f a r = x :: tl) ->
  exists tl' : list (B * string), Strptime.bind p f s = x :: tl'.
Proof.
  intros Hp [tl Hf]. unfold Strptime.bind. rewrite Hp. cbn [flat_map fst snd].
  rewrite Hf. now eexists.
Qed.

Lemma years_check :
  forallb (fun n =>
             match Strptime.bind spaces1 (fun _ => dir_Y)
                     (String " " (str (Z.of_nat n))) with
             | [(v, EmptyString)] => v =? Z.of_nat n
             | _ => false
             end) (seq (Z.to_nat 1000) (Z.to_nat 9000)) = true.
Proof. vm_compute. reflexivity. Qed.

Lemma month_head (m : Z) (rest : string) :
  1 <= m <= 12 ->
  exists more, dir_b (nth (Z.to_nat (m - 1)) month_abbr "" ++ rest) = (m, rest) :: more.
Proof.
  intros H.
  assert (Hm : m = 1 \/ m = 2 \/ m = 3 \/ m = 4 \/ m = 5 \/ m = 6 \/ m = 7
               \/ m = 8 \/ m = 9 \/ m = 10 \/ m = 11 \/ m = 12) by lia.
  repeat (destruct Hm as [Hm|Hm]); subst m; vm_compute; eexists; reflexivity.
Qed.

Lemma day_head (d : Z) (rest : string) :
  1 <= d <= 31 ->
  spaces1 (String " " (pad2 d ++ String "," rest))
  = [(tt, pad2 d ++ String "," rest)]
  /\ exists more : list (Z * string),
       dir_d (pad2 d ++ String "," rest) = (d, String "," rest) :: more.
Proof.
  intros H.
  assert (Hd : d = 1 \/ d = 2 \/ d = 3 \/ d = 4 \/ d = 5 \/ d = 6 \/ d = 7
               \/ d = 8 \/ d = 9 \/ d = 10 \/ d = 11 \/ d = 12 \/ d = 13
               \/ d = 14 \/ d = 15 \/ d = 16 \/ d = 17 \/ d = 18 \/ d = 19
               \/ d = 20 \/ d = 21 \/ d = 22 \/ d = 23 \/ d = 24 \/ d = 25
               \/ d = 26 \/ d = 27 \/ d = 28 \/ d = 29 \/ d = 30 \/ d = 31)
    by lia.
  repeat (destruct Hd as [Hd|Hd]); subst d;
    (split; [vm_compute; reflexivity | vm_compute; eexists; reflexivity]).
Qed.

Lemma bind_assoc {A B C : Type} (p : matcher A) (f : A -> matcher B)
  (g : B -> matcher C) (s : string) :
  Strptime.bind (Strptime.bind p f) g s
  = Strptime.bind p (fun a => Strptime.bind (f a) g) s.
Proof. unfold Strptime.bind. apply flat_map_flat_map. Qed.

Lemma year_tail (y : Z) :
  1000 <= y <= 9999 ->
  Strptime.bind spaces1 (fun _ => dir_Y) (String " " (str y)) = [(y, "")].
Proof.
  intros H. pose proof years_check as C. rewrite forallb_forall in C.
  specialize (C (Z.to_nat y)). rewrite Z2Nat.id in C by lia.
  assert (Hin : In (Z.to_nat y) (seq (Z.to_nat 1000) (Z.to_nat 9000))) by (apply in_seq; lia).
  specialize (C Hin).
  destruct (Strptime.bind spaces1 (fun _ => dir_Y) (String " " (str y)))
    as [|[v [|c r]] [|q l]]; try discriminate.
  apply Z.eqb_eq in C. now subst.
Qed.

Lemma days_in_month_le (y m : Z) : 1 <= m <= 12 -> days_in_month y m <= 31.
Proof.
  intros H. unfold days_in_month.
  destruct ((m =? 2) && is_leap y); [lia|].
  assert (Hm : m = 1 \/ m = 2 \/ m = 3 \/ m = 4 \/ m = 5 \/ m = 6 \/ m = 7
               \/ m = 8 \/ m = 9 \/ m = 10 \/ m = 11 \/ m = 12) by lia.
  repeat (destruct Hm as [Hm|Hm]); subst m; apply Z.leb_le; reflexivity.
Qed.

Lemma strftime_strptime_round_trip_aux (t : datetime) :
  check_date_fields (year t) (month t) (day t) = true ->
  1000 <= year t ->
  strptime_bdY (strftime_bdY t)
  = Some (mkDatetime (year t) (month t) (day t) 0 0 0 0).
Proof.
  intros C Hy. pose proof C as C'.
  unfold check_date_fields, MINYEAR, MAXYEAR in C'.
  rewrite !andb_true_iff, !Z.leb_le in C'.
  destruct C' as [[[[[_ Hy'] Hm1] Hm2] Hd1] Hd2].
  pose proof (days_in_month_le (year t) (month t) (conj Hm1 Hm2)) as Hd3.
  set (y := year t) in *. set (m := month t) in *. set (d := day t) in *.
  assert (H : exists tl, re_bdY (strftime_bdY t) = ((y, m, d), "") :: tl).
  { unfold re_bdY, strftime_bdY. fold y m d.
    destruct (month_head m (" " ++ pad2 d ++ ", " ++ str y) (conj Hm1 Hm2))
      as [more Hmon].
    change (" " ++ pad2 d ++ ", " ++ str y)
      with (String " " (pad2 d ++ String "," (String " " (str y)))) in *.
    destruct (day_head d (String " " (str y))) as [Hsp [more' Hday]]; [lia|].
    assert (Hyear : Strptime.bind spaces1
                      (fun _ => Strptime.bind dir_Y
                                  (fun y' => Strptime.ret (y', m, d)))
                      (String " " (str y)) = [((y, m, d), "")]).
    { rewrite <- (bind_assoc spaces1 (fun _ => dir_Y)).
      unfold Strptime.bind at 1. rewrite (year_tail y) by lia. reflexivity. }
    eapply hd_bind; [exact Hmon|].
    eapply hd_bind; [exact Hsp|].
    eapply hd_bind; [exact Hday|].
    eapply hd_bind; [reflexivity|]. eexists. exact Hyear. }
  destruct H as [tl H]. unfold strptime_bdY, full_match. rewrite H.
  unfold date_of, datetime_new. now rewrite C.
Qed.

(** X10. A date printed with ['%b %d, %Y'] reads back, with the format
    of the sort key, as midnight of the same day, for every valid date
    from the year 1000 on. *)
Theorem strftime_strptime_round_trip (t : datetime) :
  check_date_fields (year t) (month t) (day t) = true ->
  1000 <= year t ->
  strptime_bdY (strftime_bdY t)
  = Some (mkDatetime (year t) (month t) (day t) 0 0 0 0).
Proof. apply strftime_strptime_round_trip_aux. Qed.

Lemma strftime_strptime_round_trip_witness :
  strptime_bdY (strftime_bdY (mkDatetime 2024 2 29 13 5 59 0))
  = Some (mkDatetime 2024 2 29 0 0 0 0).
Proof.
  exact (strftime_strptime_round_trip (mkDatetime 2024 2 29 13 5 59 0)
           eq_refl (Zle_bool_imp_le 1000 2024 eq_refl)).
Defined.

(** ** Sorting what the per-device normalizer made *)

Lemma strptime_iso_valid (s : string) (t : datetime) :
  strptime_iso s = Some t ->
  check_date_fields (year t) (month t) (day t) = true.
Proof.
  unfold strptime_iso.
  destruct (full_match _ s) as [[[[[[y m] d] h] mi] sec]|]; [|discriminate].
  unfold datetime_new.
  destruct (check_date_fields y m d) eqn:C; [|discriminate].
  destruct (check_time_fields h mi sec 0); [|discriminate].
  cbn [andb]. now intros [= <-].
Qed.

Lemma made_for_key (api : value -> result Network) (name id : value)
  (license : License) (record : dict) :
  made_for api name id license record ->
  (forall t : datetime,
      strptime_value strptime_iso (expirationDate license) = Ok t ->
      1000 <= year t) ->
  exists k : datetime, expiration_key record = Ok k.
Proof.
  intros [[_ ->] | [_ [t [n [Ht [_ ->]]]]]] Hyear.
  - now exists datetime_max.
  - exists (mkDatetime (year t) (month t) (day t) 0 0 0 0).
    apply (expiration_key_date _ (strftime_bdY t)); [reflexivity|].
    apply strftime_strptime_round_trip_aux; [|now apply Hyear].
    unfold strptime_value in Ht.
    destruct (expirationDate license) as [|s|z]; try discriminate.
    destruct (strptime_iso s) as [t'|] eqn:E; [|discriminate].
    injection Ht as ->. exact (strptime_iso_valid s t E).
Qed.

Section Sortable.
Variable api_getOrganizationLicenses : value -> result (list License).
Variable api_getNetwork : value -> result Network.

(** X11. The records that [per_device_license] returns can always be
    sorted: when every expiration date of the organization is of the year
    1000 or later, [sorted] raises nothing on them. *)
Theorem per_device_license_sortable
  (name id : value) (licenses : list License) (records : list dict)
  (w w' : world) :
  api_getOrganizationLicenses id = Ok licenses ->
  Forall (fun license =>
            forall t : datetime,
              strptime_value strptime_iso (expirationDate license) = Ok t ->
              1000 <= year t) licenses ->
  per_device_license api_getOrganizationLicenses api_getNetwork name id w
  = (Ok records, w') ->
  exists out : list dict,
    sorted_by_expiration records = Ok out /\ Permutation records out.
Proof.
  intros Hapi Hyears Hrun.
  destruct (per_device_license_full_inv _ _ _ _ _ _ _ Hrun)
    as [licenses' [Hapi' [Hmade _]]].
  assert (licenses' = licenses) by congruence. subst licenses'.
  assert (Hkeys : Forall (fun item => exists k, expiration_key item = Ok k)
                         records).
  { clear Hrun Hapi Hapi'. induction Hmade as [|l r ls rs Hm _ IH];
      constructor.
    - exact (made_for_key _ _ _ _ _ Hm (Forall_inv Hyears)).
    - exact (IH (Forall_inv_tail Hyears)). }
  destruct (decorate_total records Hkeys) as [d Hd].
  unfold sorted_by_expiration. rewrite Hd. cbn [rbind]. eexists.
  split; [reflexivity|].
  apply sorted_by_expiration_perm. unfold sorted_by_expiration.
  now rewrite Hd.
Qed.

End Sortable.

Lemma per_device_license_sortable_witness :
  exists out : list dict,
    sorted_by_expiration
      match fst (per_device_license Demo.licenses_for Demo.network
                   (VStr "C") (VStr "3") w0) with
      | Ok records => records
      | Raise _ => []
      end = Ok out
    /\ Permutation
         match fst (per_device_license Demo.licenses_for Demo.network
                      (VStr "C") (VStr "3") w0) with
         | Ok records => records
         | Raise _ => []
         end out.
Proof.
  refine (per_device_license_sortable Demo.licenses_for Demo.network
            (VStr "C") (VStr "3") Demo.licenses _ w0
            (snd (per_device_license Demo.licenses_for Demo.network
                    (VStr "C") (VStr "3") w0))
            eq_refl _ eq_refl).
  repeat constructor; intros t H; vm_compute in H;
    [discriminate | injection H as <-; vm_compute; discriminate].
Defined.

(** ** A failure in the loop over the organizations *)

Section FailFast.
Variable tznames : list string.
Variable clock : nat -> datetime.
Variable api_getOrganizations : result (list Org).
Variable api_getOrganizationLicensesOverview : value -> result Overview.
Variable api_getOrganizationLicenses : value -> result (list License).
Variable api_getNetwork : value -> result Network.

(** The loop over a concatenation is the loop over the first part
    followed by the loop over the second. *)
Lemma dispatch_app (l1 l2 : list Org) :
  forall (b : buckets) (w : world),
    dispatch tznames clock api_getOrganizationLicensesOverview
             api_getOrganizationLicenses api_getNetwork (l1 ++ l2)%list b w
    = Report.bind
        (dispatch tznames clock api_getOrganizationLicensesOverview
                  api_getOrganizationLicenses api_getNetwork l1 b)
        (dispatch tznames clock api_getOrganizationLicensesOverview
                  api_getOrganizationLicenses api_getNetwork l2) w.
Proof.
  induction l1 as [|org l1 IH]; intros b w; [reflexivity|].
  cbn [app dispatch]. unfold Report.bind.
  destruct (dispatch_org _ _ _ _ _ org b w) as [[b'|e] w1]; [|reflexivity].
  rewrite IH. reflexivity.
Qed.

(** X12. [main] stops at the first organization that fails: when the
    loop has handled the organizations before [org] and the step for
    [org] raises [e], the run raises [e] in the state that this step
    left, so no later organization is queried and no sheet is made. *)
Theorem main_stops_at_first_failure
  (before after : list Org) (org : Org) (b1 : buckets) (w w1 w2 : world)
  (e : exn) :
  api_getOrganizations = Ok (before ++ org :: after)%list ->
  dispatch tznames clock api_getOrganizationLicensesOverview
           api_getOrganizationLicenses api_getNetwork before ([], [])
           (log GetOrganizations w) = (Ok b1, w1) ->
  dispatch_org tznames clock api_getOrganizationLicensesOverview
               api_getOrganizationLicenses api_getNetwork org b1 w1
  = (Raise e, w2) ->
  main tznames clock api_getOrganizations api_getOrganizationLicensesOverview
       api_getOrganizationLicenses api_getNetwork w = (Raise e, w2).
Proof.
  intros Hapi Hbefore Hstep.
  unfold main, getOrganizations, Report.bind. rewrite Hapi.
  rewrite dispatch_app. unfold Report.bind. rewrite Hbefore.
  cbn [dispatch]. unfold Report.bind. now rewrite Hstep.
Qed.

End FailFast.

Lemma main_stops_at_first_failure_witness :
  main [] Demo.clock
       (Ok ([mkOrg (VStr "A") (VStr "1") (VStr "co-term")]
            ++ mkOrg (VStr "C") (VStr "3") (VStr "per-device")
            :: [mkOrg (VStr "D") (VStr "4") (VStr "co-term")])%list)
       Demo.overview (fun _ => Raise APIError) Demo.network w0
  = (Raise APIError,
     mkWorld [GetOrganizations; GetOrganizationLicensesOverview (VStr "1");
              GetOrganizationLicenses (VStr "3")] 1).
Proof.
  exact (main_stops_at_first_failure [] Demo.clock _ Demo.overview
           (fun _ => Raise APIError) Demo.network
           [mkOrg (VStr "A") (VStr "1") (VStr "co-term")]
           [mkOrg (VStr "D") (VStr "4") (VStr "co-term")]
           (mkOrg (VStr "C") (VStr "3") (VStr "per-device"))
           _ w0 _ _ APIError eq_refl eq_refl eq_refl).
Defined.

(** ** When the per-device normalizer returns *)

Section PerDeviceErrors.
Variable api_getOrganizationLicenses : value -> result (list License).
Variable api_getNetwork : value -> result Network.
Variables name id : value.

(** X13. The body of the loop of [per_device_license] returns a record
    exactly when the license has no expiration date, or has one that
    parses under ['%Y-%m-%dT%H:%M:%SZ'] and a network that the dashboard
    finds. A date that does not parse raises [ValueError] before any
    network lookup; a failure of the lookup is passed on as it is. *)
Theorem per_device_entry_returns_iff (license : License) (w : world) :
  ((exists (record : dict) (w' : world),
       per_device_entry api_getNetwork name id license w = (Ok record, w'))
   <-> entry_ok api_getNetwork license)
  /\ (forall s : string,
        expirationDate license = VStr s -> s <> "" ->
        strptime_iso s = None ->
        per_device_entry api_getNetwork name id license w
        = (Raise ValueError, w))
  /\ (forall (t : datetime) (e : exn),
        truthy (expirationDate license) = true ->
        strptime_value strptime_iso (expirationDate license) = Ok t ->
        api_getNetwork (networkId license) = Raise e ->
        per_device_entry api_getNetwork name id license w
        = (Raise e, log (GetNetwork (networkId license)) w)).
Proof.
  split; [split|split].
  - intros [record [w' Hrun]] Ht.
    destruct (entry_inv _ _ _ _ _ _ _ Hrun)
      as [[Hf _] | [_ [t [n [H1 [H2 _]]]]]]; [congruence|].
    split; [now exists t | now exists n].
  - intros Hok. destruct (truthy (expirationDate license)) eqn:Ht.
    + destruct (Hok Ht) as [[t H1] [n H2]].
      rewrite (entry_present _ _ _ _ t n w Ht H1 H2). eauto.
    + rewrite (entry_absent _ _ _ _ w Ht). eauto.
  - intros s Hs Hne Hparse. unfold per_device_entry, Report.bind, lift.
    rewrite Hs. cbn [truthy strptime_value]. rewrite Hparse.
    destruct (String.eqb_spec s ""); [contradiction|reflexivity].
  - intros t e Ht Hparse Hnet.
    unfold per_device_entry, Report.bind, lift, getNetwork.
    now rewrite Ht, Hparse, Hnet.
Qed.

Lemma loop_ok_inv (licenses : list License) :
  forall (acc : list dict) (w : world) (records : list dict) (w' : world),
    per_device_loop api_getNetwork name id licenses acc w = (Ok records, w') ->
    Forall (entry_ok api_getNetwork) licenses.
Proof.
  intros acc w records w' Hrun.
  destruct (loop_inv _ _ _ _ _ _ _ _ Hrun) as [new [_ Hnew]].
  eapply Forall2_left; [|exact Hnew]. intros l r. apply made_for_entry_ok.
Qed.

(** X14. [per_device_license] returns exactly when the dashboard lists
    the licenses of the organization and the body of the loop returns on
    each of them; one license with a date that does not parse, or with a
    network that is not found, makes the whole call raise. *)
Theorem per_device_license_returns_iff (w : world) :
  (exists (records : list dict) (w' : world),
      per_device_license api_getOrganizationLicenses api_getNetwork name id w
      = (Ok records, w'))
  <-> exists licenses : list License,
        api_getOrganizationLicenses id = Ok licenses
        /\ Forall (entry_ok api_getNetwork) licenses.
Proof.
  unfold per_device_license, Report.bind, getOrganizationLicenses. split.
  - intros [records [w' Hrun]].
    destruct (api_getOrganizationLicenses id) as [licenses|e]; [|discriminate].
    exists licenses. split; [reflexivity|].
    exact (loop_ok_inv _ _ _ _ _ Hrun).
  - intros [licenses [-> Hok]]. now apply loop_total.
Qed.

End PerDeviceErrors.

(** ** The name of the report file *)

Lemma append_length (s t : string) :
  String.length (s ++ t) = (String.length s + String.length t)%nat.
Proof.
  induction s as [|c s IH]; [reflexivity|]. cbn. now rewrite IH.
Qed.

Lemma string_app_assoc (s t u : string) : (s ++ t) ++ u = s ++ (t ++ u).
Proof.
  induction s as [|c s IH]; [reflexivity|]. cbn. now rewrite IH.
Qed.

Lemma append_inj_l (s x y : string) : s ++ x = s ++ y -> x = y.
Proof.
  induction s as [|c s IH]; [trivial|]. cbn. intros [= H]. now apply IH.
Qed.

Lemma append_inj_r (t : string) :
  forall s1 s2 : string, s1 ++ t = s2 ++ t -> s1 = s2.
Proof.
  induction s1 as [|c s1 IH]; intros [|c' s2] H.
  - reflexivity.
  - apply (f_equal String.length) in H. cbn in H.
    rewrite append_length in H. lia.
  - apply (f_equal String.length) in H. cbn in H.
    rewrite append_length in H. lia.
  - cbn in H. injection H as -> H. f_equal. now apply IH.
Qed.

Lemma pad2_decode (n : Z) (r : string) :
  1 <= n <= 31 ->
  match pad2 n ++ r with
  | String c1 (String c2 r') => Some (10 * digit_val c1 + digit_val c2, r')
  | _ => None
  end = Some (n, r).
Proof.
  intros H.
  assert (Hn : n = 1 \/ n = 2 \/ n = 3 \/ n = 4 \/ n = 5 \/ n = 6 \/ n = 7
               \/ n = 8 \/ n = 9 \/ n = 10 \/ n = 11 \/ n = 12 \/ n = 13
               \/ n = 14 \/ n = 15 \/ n = 16 \/ n = 17 \/ n = 18 \/ n = 19
               \/ n = 20 \/ n = 21 \/ n = 22 \/ n = 23 \/ n = 24 \/ n = 25
               \/ n = 26 \/ n = 27 \/ n = 28 \/ n = 29 \/ n = 30 \/ n = 31)
    by lia.
  repeat (destruct Hn as [Hn|Hn]); subst n; vm_compute; reflexivity.
Qed.

Lemma pad2_app_inj (n n' : Z) (r r' : string) :
  1 <= n <= 31 -> 1 <= n' <= 31 ->
  pad2 n ++ r = pad2 n' ++ r' -> n = n' /\ r = r'.
Proof.
  intros Hn Hn' H. pose proof (pad2_decode n r Hn) as E.
  rewrite H, (pad2_decode n' r' Hn') in E. injection E as -> ->. now split.
Qed.

Lemma valid_date_bounds (d : date) :
  valid_date d -> 1 <= d_month d <= 31 /\ 1 <= d_day d <= 31.
Proof.
  unfold valid_date, check_date_fields.
  rewrite !andb_true_iff, !Z.leb_le. intros [[[[[_ _] Hm1] Hm2] Hd1] Hd2].
  pose proof (days_in_month_le (d_year d) (d_month d) (conj Hm1 Hm2)). lia.
Qed.

(** X15. The name of the report file tells the day: two valid dates give
    the same file name only if they are the same date, so the report of
    one day never takes the place of the report of another day. *)
Theorem output_file_name_inj (a b : date) :
  valid_date a -> valid_date b ->
  output_file_name a = output_file_name b -> a = b.
Proof.
  intros Ha Hb H.
  destruct (valid_date_bounds a Ha) as [Hma Hda].
  destruct (valid_date_bounds b Hb) as [Hmb Hdb].
  unfold output_file_name, strftime_mdY in H. apply append_inj_l in H.
  rewrite !string_app_assoc in H.
  apply pad2_app_inj in H; [|assumption|assumption]. destruct H as [Hm H].
  apply (append_inj_l "-") in H.
  apply pad2_app_inj in H; [|assumption|assumption]. destruct H as [Hd H].
  apply (append_inj_l "-") in H. apply append_inj_r, str_inj in H.
  destruct a, b. cbn in *. congruence.
Qed.

Lemma output_file_name_inj_witness :
  mkDate 2025 10 6 = mkDate 2025 10 6.
Proof.
  exact (output_file_name_inj (mkDate 2025 10 6) (mkDate 2025 10 6)
           eq_refl eq_refl eq_refl).
Defined.

(** ** The display of a co-term record and the sort *)

Lemma sorted_by_expiration_keys (records out : list dict) :
  sorted_by_expiration records = Ok out ->
  Forall (fun item => exists k, expiration_key item = Ok k) records.
Proof.
  unfold sorted_by_expiration.
  destruct (decorate records) as [d|e] eqn:Hd; [|discriminate]. intros _.
  destruct (decorate_inv records d Hd) as [<- Hk].
  rewrite Forall_forall in Hk |- *. intros item Hin.
  apply in_map_iff in Hin. destruct Hin as [[k r] [<- Hin]].
  exists k. exact (Hk _ Hin).
Qed.

Section CoTermSort.
Variable tznames : list string.
Variable clock : nat -> datetime.
Variable api_getOrganizations : result (list Org).
Variable api_getOrganizationLicensesOverview : value -> result Overview.
Variable api_getOrganizationLicenses : value -> result (list License).
Variable api_getNetwork : value -> result Network.

Lemma co_term_license_display_inv (name id : value) (w w' : world)
  (record : dict) :
  co_term_license tznames clock api_getOrganizationLicensesOverview name id w
  = (Ok record, w') ->
  exists (status : value) (s : string),
    api_getOrganizationLicensesOverview id = Ok (mkOverview status (VStr s))
    /\ dict_get "License Expiration" record
       = Some (VStr (strip (replace "UTC" "" s))).
Proof.
  unfold co_term_license, Report.bind, getOrganizationLicensesOverview.
  destruct (api_getOrganizationLicensesOverview id) as [[status ed]|e];
    [|discriminate].
  cbn [ov_expirationDate ov_status]. destruct ed as [|s|n]; try discriminate.
  cbn [Report.ret].
  destruct (get_days_remaining tznames clock (VStr s) _) as [[remaining|e] w1];
    [|discriminate].
  intros [= <- <-]. now exists status, s.
Qed.

(** The co-term bucket against the co-term organizations, for any
    relation that every record of [co_term_license] satisfies. *)
Lemma dispatch_coterm_inv (P : Org -> dict -> Prop) :
  (forall (org : Org) (w w' : world) (record : dict),
      co_term_license tznames clock api_getOrganizationLicensesOverview
                      (org_name org) (org_id org) w = (Ok record, w') ->
      P org record) ->
  forall (orgs : list Org) (c0 : list dict) (p0 : list (list dict)) (w : world)
         (c : list dict) (p : list (list dict)) (w' : world),
    dispatch tznames clock api_getOrganizationLicensesOverview
             api_getOrganizationLicenses api_getNetwork orgs (c0, p0) w
    = (Ok (c, p), w') ->
    exists c1 : list dict,
      c = (c0 ++ c1)%list /\ Forall2 P (filter is_coterm orgs) c1.
Proof.
  intros HP. induction orgs as [|org rest IH]; intros c0 p0 w c p w' Hrun.
  - cbn in Hrun. injection Hrun as <- <- <-. exists [].
    rewrite app_nil_r. split; [reflexivity|constructor].
  - cbn [dispatch] in Hrun. unfold Report.bind in Hrun.
    cbn [filter]. unfold dispatch_org in Hrun. fold (is_coterm org) in Hrun.
    destruct (is_coterm org) eqn:Hc.
    + unfold Report.bind in Hrun.
      destruct (co_term_license _ _ _ _ _ w) as [[record|e] w1] eqn:E;
        [|discriminate].
      cbn [Report.ret] in Hrun.
      destruct (IH _ _ _ _ _ _ Hrun) as [c1 [-> H1]].
      exists (record :: c1). rewrite <- app_assoc. split; [reflexivity|].
      constructor; [exact (HP org w w1 record E) | exact H1].
    + destruct (value_eqb (licensing_model org) (VStr "per-device")).
      * unfold Report.bind in Hrun.
        destruct (per_device_license _ _ _ _ w) as [[records|e] w1];
          [|discriminate].
        cbn [Report.ret] in Hrun. exact (IH _ _ _ _ _ _ Hrun).
      * cbn [Report.ret] in Hrun. exact (IH _ _ _ _ _ _ Hrun).
Qed.

(** X16. [main] returns only if the display of every co-term organization
    can be read back by the sort: the fetched expiration, with [UTC]
    removed and trimmed, is ["N/A"] or parses under ['%b %d, %Y']. An
    expiration whose zone word stays in the display makes the run fail at
    the sort, after all the calls to the dashboard. *)
Theorem main_coterm_display_parses
  (orgs : list Org) (w w' : world) (sheets : list sheet) (org : Org) :
  api_getOrganizations = Ok orgs ->
  main tznames clock api_getOrganizations api_getOrganizationLicensesOverview
       api_getOrganizationLicenses api_getNetwork w = (Ok sheets, w') ->
  In org orgs -> is_coterm org = true ->
  exists (status : value) (s : string),
    api_getOrganizationLicensesOverview (org_id org)
    = Ok (mkOverview status (VStr s))
    /\ (strip (replace "UTC" "" s) = "N/A"
        \/ exists k : datetime,
             strptime_bdY (strip (replace "UTC" "" s)) = Some k).
Proof.
  intros Hapi Hrun Hin Hc.
  destruct (main_inv _ _ _ _ _ _ orgs w w' sheets Hapi Hrun)
    as [c [p [Hd Hw]]].
  destruct (dispatch_coterm_inv
              (fun org record =>
                 exists (status : value) (s : string),
                   api_getOrganizationLicensesOverview (org_id org)
                   = Ok (mkOverview status (VStr s))
                   /\ dict_get "License Expiration" record
                      = Some (VStr (strip (replace "UTC" "" s))))
              (fun o w1 w2 r => co_term_license_display_inv _ _ w1 w2 r)
              _ _ _ _ _ _ _ Hd) as [c1 [Hc1 H2]].
  cbn [app] in Hc1. subst c1.
  unfold write_report in Hw. cbn [fst snd] in Hw.
  destruct (sorted_by_expiration c) as [out|e] eqn:Hout; [|discriminate].
  pose proof (sorted_by_expiration_keys c out Hout) as Hkeys.
  assert (H4 : Forall (fun org =>
                         exists (status : value) (s : string),
                           api_getOrganizationLicensesOverview (org_id org)
                           = Ok (mkOverview status (VStr s))
                           /\ (strip (replace "UTC" "" s) = "N/A"
                               \/ exists k : datetime,
                                    strptime_bdY (strip (replace "UTC" "" s))
                                    = Some k))
                      (filter is_coterm orgs)).
  { clear Hout Hd Hw. induction H2 as [|o r os rs [st [s [Ha Hdisp]]] _ IH];
      constructor.
    - exists st, s. split; [exact Ha|].
      destruct (Forall_inv Hkeys) as [k Hk]. unfold expiration_key in Hk.
      rewrite Hdisp in Hk. cbn [value_eqb NA] in Hk.
      destruct (String.eqb_spec (strip (replace "UTC" "" s)) "N/A") as [E|_];
        [now left|right].
      cbn [negb strptime_value] in Hk.
      destruct (strptime_bdY (strip (replace "UTC" "" s))) as [t|];
        [now exists t | discriminate].
    - apply IH. exact (Forall_inv_tail Hkeys). }
  rewrite Forall_forall in H4. apply H4. now apply filter_In.
Qed.

End CoTermSort.

Lemma main_coterm_display_parses_witness :
  exists (status : value) (s : string),
    Demo.overview (VStr "1") = Ok (mkOverview status (VStr s))
    /\ (strip (replace "UTC" "" s) = "N/A"
        \/ exists k : datetime,
             strptime_bdY (strip (replace "UTC" "" s)) = Some k).
Proof.
  exact (main_coterm_display_parses [] Demo.clock (Ok Demo.orgs) Demo.overview
           Demo.licenses_for Demo.network Demo.orgs w0 (snd Demo.run)
           Demo.sheets (mkOrg (VStr "A") (VStr "1") (VStr "co-term"))
           eq_refl eq_refl (or_introl eq_refl) eq_refl).
Defined.
